(** * torchMTL: the uncertainty-weighted multi-task loss example

    A shallow embedding of [examples/uncertainty_weighted_loss.ipynb]:
    the synthetic data generator, the shuffle, the [MultiTaskLossWrapper]
    module and the training loop with its loss accumulation.

    Where a property is about the formula or the exception the code
    produces, scalars are mathematical reals and the one non-real value
    kept is the [NaN] that [torch.mean] returns on an empty tensor.  The
    sign of the precision is decided by float32 and is stated over a model
    of float32 rounding.  Arrays are the rank-2 arrays the notebook works
    with (one row per example), with NumPy/PyTorch broadcasting written
    out; the task loop is also given on rank-1 tensors, one scalar per
    example. *)

From Stdlib Require Import Reals List Arith ZArith Lia Lra Permutation.
Import ListNotations.
Open Scope R_scope.

(** ** Python exceptions and the result monad *)

Inductive exn : Type :=
| TypeError
| IndexError
| ValueError
| RuntimeError.

Inductive result (A : Type) : Type :=
| Ok (a : A)
| Raise (e : exn).

Arguments Ok {A} a.
Arguments Raise {A} e.

Definition bind {A B : Type} (m : result A) (k : A -> result B) : result B :=
  match m with
  | Ok a => k a
  | Raise e => Raise e
  end.

Notation "x <- m ;; k" := (bind m (fun x => k))
  (at level 61, m at next level, right associativity).

(** ** Arrays *)

(** A rank-2 array of shape [(nrows, ncols)].  The column count is kept
    apart from the rows so that the shape [(0, c)] is representable. *)
Record ndarray : Type := Array {
  ncols : nat;
  rows : list (list R)
}.

Definition nrows (a : ndarray) : nat := length (rows a).

Definition shape (a : ndarray) : nat * nat := (nrows a, ncols a).

(** Every row has [ncols] entries. *)
Definition wf (a : ndarray) : Prop :=
  Forall (fun r => length r = ncols a) (rows a).

(** [a[k, j]] for indices in range. *)
Definition item (a : ndarray) (k j : nat) : R :=
  nth j (nth k (rows a) []) 0.

Definition Rsum (l : list R) : R := fold_right Rplus 0 l.

(** [sum_{k < n} f k] *)
Definition big_sum (n : nat) (f : nat -> R) : R := Rsum (map f (seq 0 n)).

(** Elementwise operation with a scalar (a Python float or a 0-d tensor). *)
Definition map_array (f : R -> R) (a : ndarray) : ndarray :=
  Array (ncols a) (map (map f) (rows a)).

(** Broadcasting of one dimension: equal sizes, or one of them is 1. *)
Definition broadcast_dim (err : exn) (m n : nat) : result nat :=
  if (m =? n)%nat then Ok m
  else if (m =? 1)%nat then Ok n
  else if (n =? 1)%nat then Ok m
  else Raise err.

(** A dimension of size 1 is read at index 0 whatever the output index. *)
Definition stride (d k : nat) : nat := if (d =? 1)%nat then 0%nat else k.

(** Elementwise binary operation with broadcasting; [err] is the exception
    of the library at incompatible shapes ([ValueError] for NumPy,
    [RuntimeError] for PyTorch). *)
Definition broadcast2 (err : exn) (f : R -> R -> R) (a b : ndarray)
  : result ndarray :=
  r <- broadcast_dim err (nrows a) (nrows b) ;;
  c <- broadcast_dim err (ncols a) (ncols b) ;;
  Ok (Array c
        (map (fun k =>
                map (fun j =>
                       f (item a (stride (nrows a) k) (stride (ncols a) j))
                         (item b (stride (nrows b) k) (stride (ncols b) j)))
                    (seq 0 c))
             (seq 0 r))).

(** [torch.sum(a, -1)]: the sum over the last dimension, one entry per row. *)
Definition torch_sum_last (a : ndarray) : list R := map Rsum (rows a).

(** ** The value of the variable [loss] *)

(** A 0-d tensor or a Python float: a real, or the NaN of an empty mean. *)
Inductive scalar : Type :=
| Num (x : R)
| NaN.

(** [loss] is the Python integer 0, then a rank-1 tensor from the first
    [+=] on, then the 0-d tensor of [torch.mean]. *)
Inductive pyval : Type :=
| PyInt (z : Z)
| Tensor1 (v : list R)
| Tensor0 (x : scalar).

Definition zip_with (f : R -> R -> R) (u v : list R) : list R :=
  map (fun p => f (fst p) (snd p)) (List.combine u v).

(** [loss += v].  [int] has no [__iadd__] and its [__add__] does not take
    a tensor, so on the Python integer this is [loss = v.__radd__(z)], a
    fresh tensor of the shape of [v] with [z] added to every entry.  On a
    tensor it is the in-place [add_], which broadcasts [v] to the shape of
    [loss] and raises when the broadcast shape is not that of [loss] (as
    it never is for a 0-d [loss] and a rank-1 [v]). *)
Definition iadd (loss : pyval) (v : list R) : result pyval :=
  match loss with
  | PyInt z => Ok (Tensor1 (map (fun x => x + IZR z) v))
  | Tensor1 u =>
      if (length v =? length u)%nat then Ok (Tensor1 (zip_with Rplus u v))
      else if (length v =? 1)%nat then Ok (Tensor1 (map (fun x => x + hd 0 v) u))
      else Raise RuntimeError
  | Tensor0 _ => Raise RuntimeError
  end.

(** [torch.mean(loss)]: rejects a value that is not a tensor; the mean of
    an empty tensor is NaN. *)
Definition torch_mean (loss : pyval) : result scalar :=
  match loss with
  | PyInt _ => Raise TypeError
  | Tensor1 v =>
      Ok (if (length v =? 0)%nat then NaN else Num (Rsum v / INR (length v)))
  | Tensor0 x => Ok x
  end.

(** Indexing a tuple, a list or a rank-1 tensor with a non-negative index. *)
Definition getitem {A : Type} (l : list A) (i : nat) : result A :=
  match nth_error l i with
  | Some x => Ok x
  | None => Raise IndexError
  end.

(** ** The loss wrapper module *)

Module MultiTaskLossWrapper.

Record t : Type := Build {
  num_tasks : nat;
  log_vars : list R
}.

(** [__init__]: [log_vars = nn.Parameter(torch.zeros((num_tasks)))] *)
Definition init (n : nat) : t :=
  {| num_tasks := n; log_vars := repeat 0 n |}.

(** [forward(self, *X)], as a state transformer on the module: the
    value returned and the module afterwards. *)
Definition forward (self : t) (X : list ndarray)
  : (list R * list ndarray) * t :=
  ((log_vars self, X), self).

End MultiTaskLossWrapper.

(** ** The loss accumulation of the training loop *)

(** The Python variables the loop reads and writes.  [var_i] is shared by
    the epoch loop and the task loop. *)
Record env : Type := Env {
  var_i : nat;
  var_loss : pyval
}.

Definition set_i (k : nat) (e : env) : env := Env k (var_loss e).
Definition set_loss (l : pyval) (e : env) : env := Env (var_i e) l.

(** [precision = torch.exp(-log_vars[i])] *)
Definition precision (log_var : R) : R := exp (- log_var).

(** The body of [for i in range(len(y))]:
<<
    precision = torch.exp(-log_vars[i])
    diff = (y_hat[i] - y[i])**2.
    loss += torch.sum(precision * diff + log_vars[i], -1)
>> *)
Definition loss_body (log_vars : list R) (y_hat y : list ndarray) (e : env)
  : result env :=
  lv <- getitem log_vars (var_i e) ;;
  let prec := precision lv in
  p <- getitem y_hat (var_i e) ;;
  t <- getitem y (var_i e) ;;
  d <- broadcast2 RuntimeError Rminus p t ;;
  let diff := map_array (fun x => x ^ 2) d in
  l <- iadd (var_loss e)
         (torch_sum_last (map_array (fun x => prec * x + lv) diff)) ;;
  Ok (set_loss l e).

(** [for k in ks: body]; each use assigns its loop variable at the top of
    the body. *)
Fixpoint for_range {S : Type} (ks : list nat) (body : nat -> S -> result S)
    (s : S) : result S :=
  match ks with
  | [] => Ok s
  | k :: ks' => s' <- body k s ;; for_range ks' body s'
  end.

(** Lines [loss = 0] to [loss = torch.mean(loss)] of the batch step, run
    in an environment whose [i] is whatever the epoch loop left there.
    Returns the mean and the environment after the task loop. *)
Definition batch_loss (log_vars : list R) (y_hat y : list ndarray) (e : env)
  : result (scalar * env) :=
  let e0 := set_loss (PyInt 0) e in
  e1 <- for_range (seq 0 (length y))
          (fun i e => loss_body log_vars y_hat y (set_i i e)) e0 ;;
  m <- torch_mean (var_loss e1) ;;
  Ok (m, e1).

(** The loss alone, in the environment of epoch [epoch]. *)
Definition combined_loss (epoch : nat) (log_vars : list R)
    (y_hat y : list ndarray) : result scalar :=
  r <- batch_loss log_vars y_hat y (Env epoch (PyInt 0)) ;;
  Ok (fst r).

(** ** The data generator and the shuffle *)

(** Globals of the notebook. *)
Definition input_size : nat := 1.
Definition output1_size : nat := 1.
Definition output2_size : nat := 1.
Definition N : nat := 100.
Definition nb_epoch : nat := 2000.
Definition batch_size : nat := 20.

(** The slice [a[lo:hi]] of the rows, for [lo <= hi]. *)
Definition slice (a : ndarray) (lo hi : nat) : ndarray :=
  Array (ncols a) (firstn (hi - lo) (skipn lo (rows a))).

(** Python float arithmetic, as far as the loop uses it. *)
Definition scalar_add (a b : scalar) : scalar :=
  match a, b with
  | Num x, Num y => Num (x + y)
  | _, _ => NaN
  end.

Definition scalar_scale (a : scalar) (num den : nat) : scalar :=
  match a with
  | Num x => Num (x * INR num / INR den)
  | NaN => NaN
  end.

(** Fancy indexing [a[s]] with an index array [s]: one output row per
    index, [IndexError] at an index that is not a row of [a]. *)
Fixpoint take_rows (rs : list (list R)) (s : list nat)
  : result (list (list R)) :=
  match s with
  | [] => Ok []
  | k :: s' =>
      r <- getitem rs k ;;
      rest <- take_rows rs s' ;;
      Ok (r :: rest)
  end.

Definition index_rows (a : ndarray) (s : list nat) : result ndarray :=
  rs <- take_rows (rows a) s ;;
  Ok (Array (ncols a) rs).

Section Notebook.

(** NumPy's and PyTorch's global generators are ambient state of the
    notebook.  Their algorithms are not part of the repository: the
    state types and the samplers are parameters. *)
Variable np_rng : Type.
Variable torch_rng : Type.

(** [np.random.seed(k)] and [torch.manual_seed(k)]: the state after
    seeding is a function of the seed. *)
Variable np_seed : Z -> np_rng.
Variable torch_seed : Z -> torch_rng.

(** [np.random.randn(r, c)]: an [(r, c)] array of standard normal
    draws and the generator state after them. *)
Variable randn : nat -> nat -> np_rng -> ndarray * np_rng.

(** [np.random.shuffle(s)], in place on [s]. *)
Variable shuffle : list nat -> np_rng -> list nat * np_rng.

(** The ambient state. *)
Record world : Type := World {
  np_state : np_rng;
  torch_state : torch_rng
}.

Definition set_np (s : np_rng) (w : world) : world :=
  World s (torch_state w).

(** Computations of the notebook: a result or an exception, and the
    ambient state afterwards. *)
Definition NB (A : Type) : Type := world -> result A * world.

Definition ret {A : Type} (a : A) : NB A := fun w => (Ok a, w).

Definition lift {A : Type} (r : result A) : NB A := fun w => (r, w).

Definition bindNB {A B : Type} (m : NB A) (k : A -> NB B) : NB B :=
  fun w =>
    match m w with
    | (Ok a, w') => k a w'
    | (Raise e, w') => (Raise e, w')
    end.

Notation "x <~ m ;; k" := (bindNB m (fun x => k))
  (at level 61, m at next level, right associativity).

Definition np_random_seed (k : Z) : NB unit :=
  fun w => (Ok tt, set_np (np_seed k) w).

Definition torch_manual_seed (k : Z) : NB unit :=
  fun w => (Ok tt, World (np_state w) (torch_seed k)).

Definition np_random_randn (r c : nat) : NB ndarray :=
  fun w => let (a, s) := randn r c (np_state w) in (Ok a, set_np s w).

Definition np_random_shuffle (l : list nat) : NB (list nat) :=
  fun w => let (l', s) := shuffle l (np_state w) in (Ok l', set_np s w).

(** [gen_data(N)].  [X.dot(w)] with a scalar [w] multiplies every entry;
    the noise is drawn before the addition that may broadcast. *)
Definition gen_data (N : nat) : NB (ndarray * ndarray * ndarray) :=
  X <~ np_random_randn N input_size ;;
  let w1 := 2 in
  let b1 := 8 in
  let sigma1 := 10 in
  noise1 <~ np_random_randn N output1_size ;;
  Y1 <~ lift (broadcast2 ValueError Rplus
                (map_array (fun x => x + b1) (map_array (fun x => x * w1) X))
                (map_array (fun x => sigma1 * x) noise1)) ;;
  let w2 := 3 in
  let b2 := 3 in
  let sigma2 := 1 in
  noise2 <~ np_random_randn N output2_size ;;
  Y2 <~ lift (broadcast2 ValueError Rplus
                (map_array (fun x => x + b2) (map_array (fun x => x * w2) X))
                (map_array (fun x => sigma2 * x) noise2)) ;;
  ret (X, Y1, Y2).

(** [shuffle_data(X, Y1, Y2)] *)
Definition shuffle_data (X Y1 Y2 : ndarray)
  : NB (ndarray * ndarray * ndarray) :=
  let s := seq 0 (nrows X) in
  s <~ np_random_shuffle s ;;
  X' <~ lift (index_rows X s) ;;
  Y1' <~ lift (index_rows Y1 s) ;;
  Y2' <~ lift (index_rows Y2 s) ;;
  ret (X', Y1', Y2').

(** The first cell seeds both generators, with [k = 0]. *)
Definition seed_all (k : Z) : NB unit :=
  _ <~ np_random_seed k ;;
  torch_manual_seed k.

(** *** The training loop *)

(** The layers, the graph model and the optimizer are not part of the
    notebook.  [params] stands for everything the optimizer updates (the
    weights of the three layers, the wrapper's [log_vars], Adam's
    moments); [heads] for the outputs of [Lin1] and [Lin2] on a batch;
    [optimizer_step] for [zero_grad], [backward] and [step] on the loss
    of a batch. *)
Variable params : Type.
Variable wrapper : params -> MultiTaskLossWrapper.t.
Variable heads : params -> ndarray -> result (list ndarray).
Variable optimizer_step : params -> ndarray -> list ndarray -> params.

(** [multi_loss_out[0]] of [model(X_)]: the graph model feeds the two
    heads' outputs to the wrapper's [forward]. *)
Definition model (p : params) (X_ : ndarray)
  : result (list R * list ndarray) :=
  hs <- heads p X_ ;;
  Ok (fst (MultiTaskLossWrapper.forward (wrapper p) hs)).

Record tstate : Type := TState {
  st_params : params;
  st_X : ndarray;
  st_Y1 : ndarray;
  st_Y2 : ndarray;
  st_env : env;
  st_epoch_loss : scalar;
  st_losses : list scalar
}.

Definition set_env (e : env) (st : tstate) : tstate :=
  {| st_params := st_params st;
     st_X := st_X st;
     st_Y1 := st_Y1 st;
     st_Y2 := st_Y2 st;
     st_env := e;
     st_epoch_loss := st_epoch_loss st;
     st_losses := st_losses st |}.

(** The body of [for j in range(N//batch_size)]. *)
Definition batch_step (j : nat) (st : tstate) : result tstate :=
  let lo := (j * batch_size)%nat in
  let hi := ((j + 1) * batch_size)%nat in
  let X_ := slice (st_X st) lo hi in
  let target1 := slice (st_Y1 st) lo hi in
  let target2 := slice (st_Y2 st) lo hi in
  let y := [target1; target2] in
  out <- model (st_params st) X_ ;;
  let log_vars := fst out in
  let y_hat := snd out in
  r <- batch_loss log_vars y_hat y (st_env st) ;;
  let loss := fst r in
  Ok {| st_params := optimizer_step (st_params st) X_ y;
        st_X := st_X st;
        st_Y1 := st_Y1 st;
        st_Y2 := st_Y2 st;
        st_env := set_loss (Tensor0 loss) (snd r);
        st_epoch_loss := scalar_add (st_epoch_loss st) loss;
        st_losses := st_losses st |}.

(** The body of [for i in range(nb_epoch)], entered with loop value
    [i]. *)
Definition epoch_body (i : nat) (st : tstate) : NB tstate :=
  let e := set_i i (st_env st) in
  d <~ shuffle_data (st_X st) (st_Y1 st) (st_Y2 st) ;;
  let st0 := {| st_params := st_params st;
                st_X := fst (fst d);
                st_Y1 := snd (fst d);
                st_Y2 := snd d;
                st_env := e;
                st_epoch_loss := Num 0;
                st_losses := st_losses st |} in
  st1 <~ lift (for_range (seq 0 (N / batch_size)) batch_step st0) ;;
  ret {| st_params := st_params st1;
         st_X := st_X st1;
         st_Y1 := st_Y1 st1;
         st_Y2 := st_Y2 st1;
         st_env := st_env st1;
         st_epoch_loss := st_epoch_loss st1;
         st_losses := st_losses st1
                        ++ [scalar_scale (st_epoch_loss st1) batch_size N] |}.

Fixpoint for_rangeNB {S : Type} (ks : list nat) (body : nat -> S -> NB S)
    (s : S) : NB S :=
  match ks with
  | [] => ret s
  | k :: ks' => s' <~ body k s ;; for_rangeNB ks' body s'
  end.

(** Cell 5 from [gen_data(N)] on; [astype('float32')] is the identity
    on reals. *)
Definition train (p : params) (e : env) : NB tstate :=
  d <~ gen_data N ;;
  let st := {| st_params := p;
               st_X := fst (fst d);
               st_Y1 := snd (fst d);
               st_Y2 := snd d;
               st_env := e;
               st_epoch_loss := Num 0;
               st_losses := [] |} in
  for_rangeNB (seq 0 nb_epoch) epoch_body st.

End Notebook.

(** ** Evaluating the task loop *)

Definition empty_array : ndarray := Array 0 [].

(** The mean over a batch of [B] examples as [torch.mean] computes it: no
    number is the mean of no example. *)
Definition mean_over (B : nat) (f : nat -> R) : scalar :=
  if (B =? 0)%nat then NaN else Num (big_sum B f / INR B).

(** ** Tensors of rank one and two in the loss *)

(** What the task loop can be given as a prediction or a target: a rank-1
    tensor of shape [(n,)] or a rank-2 tensor of shape [(rows, cols)]. *)
Inductive tensor : Type :=
| Rank1 (v : list R)
| Rank2 (a : ndarray).

(** What [torch.sum(t, -1)] returns: a 0-d tensor for a rank-1 [t], a
    rank-1 tensor for a rank-2 [t]. *)
Inductive reduced : Type :=
| Sum0 (x : R)
| Sum1 (v : list R).

(** A rank-1 tensor broadcasts against a rank-2 one as a single row. *)
Definition as_row (v : list R) : ndarray := Array (length v) [v].

(** [p - t] with broadcasting. *)
Definition tensor_sub (p t : tensor) : result tensor :=
  match p, t with
  | Rank1 u, Rank1 v =>
      n <- broadcast_dim RuntimeError (length u) (length v) ;;
      Ok (Rank1 (map (fun j => nth (stride (length u) j) u 0
                               - nth (stride (length v) j) v 0)
                   (seq 0 n)))
  | Rank1 u, Rank2 b =>
      d <- broadcast2 RuntimeError Rminus (as_row u) b ;; Ok (Rank2 d)
  | Rank2 a, Rank1 v =>
      d <- broadcast2 RuntimeError Rminus a (as_row v) ;; Ok (Rank2 d)
  | Rank2 a, Rank2 b =>
      d <- broadcast2 RuntimeError Rminus a b ;; Ok (Rank2 d)
  end.

(** Elementwise operation with a scalar. *)
Definition tensor_map (f : R -> R) (t : tensor) : tensor :=
  match t with
  | Rank1 v => Rank1 (map f v)
  | Rank2 a => Rank2 (map_array f a)
  end.

(** [torch.sum(t, -1)] *)
Definition tensor_sum_last (t : tensor) : reduced :=
  match t with
  | Rank1 v => Sum0 (Rsum v)
  | Rank2 a => Sum1 (torch_sum_last a)
  end.

(** [loss += r]: as [iadd] for a rank-1 [r]; a 0-d [r] is added to every
    entry of a tensor [loss] in place, and to the Python integer it gives
    a fresh 0-d tensor. *)
Definition iadd_reduced (loss : pyval) (r : reduced) : result pyval :=
  match r with
  | Sum1 v => iadd loss v
  | Sum0 x =>
      match loss with
      | PyInt z => Ok (Tensor0 (Num (x + IZR z)))
      | Tensor1 u => Ok (Tensor1 (map (fun a => a + x) u))
      | Tensor0 s => Ok (Tensor0 (scalar_add s (Num x)))
      end
  end.

(** The body of the task loop on tensors of either rank. *)
Definition loss_body_t (log_vars : list R) (y_hat y : list tensor) (e : env)
  : result env :=
  lv <- getitem log_vars (var_i e) ;;
  let prec := precision lv in
  p <- getitem y_hat (var_i e) ;;
  t <- getitem y (var_i e) ;;
  d <- tensor_sub p t ;;
  let diff := tensor_map (fun x => x ^ 2) d in
  l <- iadd_reduced (var_loss e)
         (tensor_sum_last (tensor_map (fun x => prec * x + lv) diff)) ;;
  Ok (set_loss l e).

(** Lines [loss = 0] to [loss = torch.mean(loss)], as [batch_loss], on
    tensors of either rank. *)
Definition batch_loss_t (log_vars : list R) (y_hat y : list tensor) (e : env)
  : result (scalar * env) :=
  let e0 := set_loss (PyInt 0) e in
  e1 <- for_range (seq 0 (length y))
          (fun i e => loss_body_t log_vars y_hat y (set_i i e)) e0 ;;
  m <- torch_mean (var_loss e1) ;;
  Ok (m, e1).

(** The loss alone, in the environment of epoch [epoch]. *)
Definition combined_loss_t (epoch : nat) (log_vars : list R)
    (y_hat y : list tensor) : result scalar :=
  r <- batch_loss_t log_vars y_hat y (Env epoch (PyInt 0)) ;;
  Ok (fst r).

(** ** The loss as the specification words it *)

Definition empty_tensor : tensor := Rank2 empty_array.

(** [sum_over_output_dims(f(predictions_i - targets_i))] for example [k]:
    a tensor with one scalar per example has no output dimension to sum
    over.  A prediction and a target of different ranks do not have
    matching shapes. *)
Definition sum_over_output_dims (f : R -> R) (p t : tensor) (k : nat) : R :=
  match p, t with
  | Rank1 u, Rank1 v => f (nth k u 0 - nth k v 0)
  | Rank2 a, Rank2 b => big_sum (ncols b) (fun j => f (item a k j - item b k j))
  | _, _ => 0
  end.

(** [per_example_loss_i] of example [k]. *)
Definition per_example_loss (log_var : list R)
    (predictions targets : list tensor) (i k : nat) : R :=
  let log_var_i := nth i log_var 0 in
  let precision_i := exp (- log_var_i) in
  sum_over_output_dims (fun d => precision_i * d ^ 2 + log_var_i)
    (nth i predictions empty_tensor) (nth i targets empty_tensor) k.

(** The mean over the batch of [B] examples of the per-example losses
    summed over the tasks. *)
Definition spec_loss (B : nat) (log_var : list R)
    (predictions targets : list tensor) : R :=
  big_sum B
    (fun k =>
       big_sum (length targets)
         (fun i => per_example_loss log_var predictions targets i k))
  / INR B.

(** ** The task loop, round by round *)

(** What one task adds to example [k] of the batch, with the broadcasting
    of the subtraction spelt out. *)
Definition task_term (lv : R) (p t : ndarray) (c k : nat) : R :=
  big_sum c
    (fun j =>
       precision lv
       * (item p (stride (nrows p) k) (stride (ncols p) j)
          - item t (stride (nrows t) k) (stride (ncols t) j)) ^ 2
       + lv).

(** Number of columns after broadcasting the subtraction of task [i]. *)
Definition diff_cols (p t : ndarray) : nat :=
  match broadcast_dim RuntimeError (ncols p) (ncols t) with
  | Ok c => c
  | Raise _ => 0%nat
  end.

Definition task_loss (log_vars : list R) (y_hat y : list ndarray) (i k : nat)
  : R :=
  let p := nth i y_hat empty_array in
  let t := nth i y empty_array in
  task_term (nth i log_vars 0) p t (diff_cols p t) k.

(** Entry [k] of [loss] after [m] rounds of the task loop, added up in the
    order of the loop, from the integer 0. *)
Fixpoint acc_loss (G : nat -> nat -> R) (m k : nat) : R :=
  match m with
  | O => IZR 0
  | S O => G O k + IZR 0
  | S m' => acc_loss G m' k + G m' k
  end.

(** The environment after [m] rounds, entered with [i = i0]. *)
Definition loop_env (G : nat -> nat -> R) (B i0 m : nat) : env :=
  match m with
  | O => Env i0 (PyInt 0)
  | S m' => Env m' (Tensor1 (map (acc_loss G m) (seq 0 B)))
  end.

(** ** Concrete inputs *)

(** [n] copies of the row [r], as an array. *)
Definition constant_rows (c n : nat) (r : list R) : ndarray :=
  Array c (repeat r n).

(** ** A concrete random source, to run the generator on *)

(** A counter as generator state: [randn] fills the array with the counter
    and increments it; [shuffle] reverses. *)
Definition counter_randn (r c : nat) (s : nat) : ndarray * nat :=
  (Array c (repeat (repeat (INR s) c) r), S s).

Definition counter_shuffle (l : list nat) (s : nat) : list nat * nat :=
  (rev l, S s).

(** ** float32, as far as [torch.exp] needs it *)

(** A float32 value: NaN, an infinity, or [(-1)^s * m * 2^e] with an
    integer significand [m >= 0].  The pair [(m, e)] that rounding returns
    has [e >= -149] and [m <= 2^24]; it is the value that is meant, not
    the encoding. *)
Inductive float32 : Type :=
| F32_nan
| F32_inf (negative : bool)
| F32_finite (negative : bool) (m : Z) (e : Z).

(** The real a finite float32 stands for (0 for the others, which stand
    for none). *)
Definition F32_value (f : float32) : R :=
  match f with
  | F32_finite s m e => (if s then -1 else 1) * (IZR m * powerRZ 2 e)
  | _ => 0
  end.

(** Unary minus flips the sign. *)
Definition f32_neg (f : float32) : float32 :=
  match f with
  | F32_nan => F32_nan
  | F32_inf s => F32_inf (negb s)
  | F32_finite s m e => F32_finite (negb s) m e
  end.

(** [f > 0] *)
Definition f32_positive (f : float32) : bool :=
  match f with
  | F32_inf false => true
  | F32_finite false m _ => (0 <? m)%Z
  | _ => false
  end.

(** [f < 0] or [f] is NaN *)
Definition f32_negative_or_nan (f : float32) : bool :=
  match f with
  | F32_nan => true
  | F32_inf s => s
  | F32_finite s m _ => s && (0 <? m)%Z
  end.

(** The integer nearest to [q >= 0], ties to the even one. *)
Definition nearest_even (q : R) : Z :=
  let f := Int_part q in
  let r := q - IZR f in
  if Rlt_dec r (1 / 2) then f
  else if Rlt_dec (1 / 2) r then (f + 1)%Z
  else if Z.even f then f else (f + 1)%Z.

(** [floor(log2 a)] for [a > 0] *)
Definition ilog2 (a : R) : Z := Int_part (ln a / ln 2).

(** Rounding of a real to the nearest float32: 24 significant bits in the
    normal range, multiples of [2^-149] below [2^-126], infinity from
    [2^128] on. *)
Definition round32 (x : R) : float32 :=
  let negative := if Rlt_dec x 0 then true else false in
  let a := Rabs x in
  let e := Z.max (-149) (ilog2 a - 23) in
  let m := nearest_even (a / powerRZ 2 e) in
  if Rle_dec (powerRZ 2 128) (IZR m * powerRZ 2 e)
  then F32_inf negative
  else F32_finite negative m e.

(** [torch.exp] on a float32 tensor entry: the float32 nearest to the
    exponential, with [exp(-inf) = 0], [exp(inf) = inf] and NaN kept. *)
Definition torch_exp (x : float32) : float32 :=
  match x with
  | F32_nan => F32_nan
  | F32_inf true => F32_finite false 0 (-149)
  | F32_inf false => F32_inf false
  | F32_finite _ _ _ => round32 (exp (F32_value x))
  end.

(** [precision = torch.exp(-log_vars[i])] on the float32 entry the
    parameter holds. *)
Definition precision32 (log_var : float32) : float32 :=
  torch_exp (f32_neg log_var).

(** 200.0 as a float32: [13107200 * 2^-16]. *)
Definition f32_200 : float32 := F32_finite false 13107200 (-16).

(** ** Datasets and batches *)

(** The examples of a dataset, row by row: [(X[k], Y1[k], Y2[k])]. *)
Definition examples (X Y1 Y2 : ndarray)
  : list (list R * list R * list R) :=
  List.combine (List.combine (rows X) (rows Y1)) (rows Y2).

(** The rows of the batches [a[j*b:(j+1)*b]] for [j] in [range(m)], one
    after the other. *)
Definition batches (a : ndarray) (b m : nat) : list (list R) :=
  concat (map (fun j => rows (slice a (j * b) ((j + 1) * b))) (seq 0 m)).

(** ** Reordered arrays *)


(** ** A concrete model, to run the training loop on *)

(** Two heads that return their input, a wrapper of two tasks and an
    optimizer that leaves the parameters alone. *)
Definition echo_heads (p : unit) (X_ : ndarray) : result (list ndarray) :=
  Ok [X_; X_].

Definition echo_wrapper (p : unit) : MultiTaskLossWrapper.t :=
  MultiTaskLossWrapper.init 2.

Definition echo_step (p : unit) (X_ : ndarray) (y : list ndarray) : unit := p.

Definition echo_state : tstate unit :=
  {| st_params := tt;
     st_X := Array 1 [[1]; [2]];
     st_Y1 := Array 1 [[10]; [20]];
     st_Y2 := Array 1 [[3]; [6]];
     st_env := Env 0 (PyInt 0);
     st_epoch_loss := Num 0;
     st_losses := [] |}.

(** ** Sums *)

Lemma big_sum_ext (n : nat) (f g : nat -> R) :
  (forall k, (k < n)%nat -> f k = g k) -> big_sum n f = big_sum n g.
Proof.
  intros H. unfold big_sum. f_equal.
  apply map_ext_in. intros k Hk. apply in_seq in Hk. apply H. lia.
Qed.

Lemma Rsum_app (u v : list R) : Rsum (u ++ v) = Rsum u + Rsum v.
Proof.
  unfold Rsum. induction u as [|x u IH]; simpl.
  - lra.
  - rewrite IH. lra.
Qed.

Lemma big_sum_S (n : nat) (f : nat -> R) :
  big_sum (S n) f = big_sum n f + f n.
Proof.
  unfold big_sum. rewrite seq_S, map_app, Rsum_app. simpl. lra.
Qed.

Lemma big_sum_0 (f : nat -> R) : big_sum 0 f = 0.
Proof. reflexivity. Qed.

(** ** Broadcasting *)

Lemma broadcast_dim_refl (err : exn) (n : nat) : broadcast_dim err n n = Ok n.
Proof. unfold broadcast_dim. now rewrite Nat.eqb_refl. Qed.

Lemma stride_id (d k : nat) : (k < d)%nat -> stride d k = k.
Proof.
  unfold stride. intros H.
  destruct (Nat.eqb_spec d 1); [lia | reflexivity].
Qed.

Lemma zip_with_map (f : R -> R -> R) (F G : nat -> R) (l : list nat) :
  zip_with f (map F l) (map G l) = map (fun k => f (F k) (G k)) l.
Proof.
  unfold zip_with. induction l as [|k l IH]; simpl; [reflexivity|].
  now rewrite IH.
Qed.

(** The row sums of an array built entry by entry. *)
Lemma torch_sum_last_build (g : R -> R) (F : nat -> nat -> R) (r c : nat) :
  torch_sum_last
    (map_array g
       (Array c (map (fun k => map (fun j => F k j) (seq 0 c)) (seq 0 r))))
  = map (fun k => big_sum c (fun j => g (F k j))) (seq 0 r).
Proof.
  unfold torch_sum_last, map_array, big_sum. simpl.
  rewrite !map_map. apply map_ext. intros k. now rewrite map_map.
Qed.

(** ** The task loop *)

Lemma loss_body_eval (log_vars : list R) (y_hat y : list ndarray) (e : env)
    (lv : R) (p t : ndarray) (B c : nat) :
  nth_error log_vars (var_i e) = Some lv ->
  nth_error y_hat (var_i e) = Some p ->
  nth_error y (var_i e) = Some t ->
  broadcast_dim RuntimeError (nrows p) (nrows t) = Ok B ->
  broadcast_dim RuntimeError (ncols p) (ncols t) = Ok c ->
  loss_body log_vars y_hat y e =
    (l <- iadd (var_loss e) (map (task_term lv p t c) (seq 0 B)) ;;
     Ok (set_loss l e)).
Proof.
  intros Hlv Hp Ht HB Hc.
  unfold loss_body, getitem. rewrite Hlv, Hp, Ht. cbn [bind].
  unfold broadcast2. rewrite HB, Hc. cbn [bind].
  unfold map_array at 2. cbn [ncols rows]. rewrite map_map.
  replace (map (fun k => map (fun x => x ^ 2) _) (seq 0 B))
    with (map (fun k =>
                 map (fun j =>
                        (item p (stride (nrows p) k) (stride (ncols p) j)
                         - item t (stride (nrows t) k) (stride (ncols t) j)) ^ 2)
                     (seq 0 c)) (seq 0 B)).
  2:{ apply map_ext. intros k. now rewrite map_map. }
  rewrite (torch_sum_last_build (fun x => precision lv * x + lv)
             (fun k j => (item p (stride (nrows p) k) (stride (ncols p) j)
                          - item t (stride (nrows t) k) (stride (ncols t) j)) ^ 2)).
  reflexivity.
Qed.

Lemma for_range_app {S : Type} (ks ks' : list nat)
    (body : nat -> S -> result S) (s : S) :
  for_range (ks ++ ks') body s =
    (s' <- for_range ks body s ;; for_range ks' body s').
Proof.
  revert s. induction ks as [|k ks IH]; intros s; simpl; [reflexivity|].
  destruct (body k s); simpl; [apply IH | reflexivity].
Qed.

Lemma for_range_ext {S : Type} (ks : list nat)
    (body1 body2 : nat -> S -> result S) (s : S) :
  (forall k s', In k ks -> body1 k s' = body2 k s') ->
  for_range ks body1 s = for_range ks body2 s.
Proof.
  revert s. induction ks as [|k ks IH]; intros s H; [reflexivity|].
  cbn [for_range]. rewrite (H k s (or_introl eq_refl)).
  destruct (body2 k s) as [s'|e]; [|reflexivity].
  cbn [bind]. apply IH. intros j s'' Hj. apply H. now right.
Qed.

Lemma acc_loss_big_sum (G : nat -> nat -> R) (m k : nat) :
  acc_loss G m k = big_sum m (fun i => G i k).
Proof.
  induction m as [|m IH].
  - reflexivity.
  - rewrite big_sum_S, <- IH. destruct m as [|m']; [|reflexivity].
    cbn [acc_loss]. ring.
Qed.

Lemma mean_over_ext (B : nat) (f g : nat -> R) :
  (forall k, (k < B)%nat -> f k = g k) -> mean_over B f = mean_over B g.
Proof.
  intros H. unfold mean_over. destruct (B =? 0)%nat; [reflexivity|].
  now rewrite (big_sum_ext B f g H).
Qed.

Section TaskLoop.

Variables (log_vars : list R) (y_hat y : list ndarray) (B : nat).

Local Abbreviation T := (length y).

(** Every task is indexable and its subtraction broadcasts to [B] rows. *)
Hypothesis Hlog : (T <= length log_vars)%nat.
Hypothesis Hhat : (T <= length y_hat)%nat.
Hypothesis Hshape : forall i, (i < T)%nat ->
  broadcast_dim RuntimeError
    (nrows (nth i y_hat empty_array)) (nrows (nth i y empty_array)) = Ok B
  /\ exists c, broadcast_dim RuntimeError
       (ncols (nth i y_hat empty_array)) (ncols (nth i y empty_array)) = Ok c.

Local Abbreviation G := (task_loss log_vars y_hat y).

Lemma task_loop_rounds (i0 m : nat) :
  (m <= T)%nat ->
  for_range (seq 0 m) (fun i e => loss_body log_vars y_hat y (set_i i e))
    (Env i0 (PyInt 0))
  = Ok (loop_env G B i0 m).
Proof.
  induction m as [|m IH]; intros Hm.
  - reflexivity.
  - rewrite seq_S, for_range_app, IH by lia. cbn [bind for_range Nat.add].
    destruct (Hshape m ltac:(lia)) as [HB [c Hc]].
    rewrite (loss_body_eval log_vars y_hat y _
               (nth m log_vars 0) (nth m y_hat empty_array)
               (nth m y empty_array) B c).
    + assert (Hterm : task_term (nth m log_vars 0) (nth m y_hat empty_array)
                        (nth m y empty_array) c = G m).
      { unfold G, task_loss, diff_cols. now rewrite Hc. }
      rewrite Hterm.
      destruct m as [|m']; cbn [loop_env set_i var_loss iadd].
      * rewrite map_map. reflexivity.
      * rewrite !length_map, !length_seq, Nat.eqb_refl, zip_with_map.
        reflexivity.
    + destruct m; apply nth_error_nth'; cbn; lia.
    + destruct m; apply nth_error_nth'; cbn; lia.
    + destruct m; apply nth_error_nth'; cbn; fold T; lia.
    + destruct m; exact HB.
    + destruct m; exact Hc.
Qed.

(** With at least one task the batch loss is the mean over the batch of
    the per-task terms, and [i] ends as the last task index whatever it
    was. *)
Lemma batch_loss_eval (e : env) :
  (0 < T)%nat ->
  batch_loss log_vars y_hat y e =
    Ok (mean_over B (fun k => big_sum T (fun i => G i k)),
        Env (T - 1) (Tensor1 (map (acc_loss G T) (seq 0 B)))).
Proof.
  intros HT. unfold batch_loss. destruct e as [i0 l0].
  cbv zeta. unfold set_loss. cbn [var_i]. change (length y) with T.
  rewrite (task_loop_rounds i0 T) by lia.
  destruct T as [|T'] eqn:ET; [lia|].
  cbn [bind loop_env var_loss torch_mean].
  rewrite length_map, length_seq.
  replace (S T' - 1)%nat with T' by lia.
  do 2 f_equal.
  unfold mean_over. destruct (B =? 0)%nat; [reflexivity|].
  f_equal. f_equal. unfold big_sum at 2. fold (big_sum B (acc_loss G (S T'))).
  apply big_sum_ext. intros k _. apply acc_loss_big_sum.
Qed.

End TaskLoop.

(** One task whose prediction has a single column, against a target of
    [c] columns and the same [B] rows: the column is broadcast. *)
Lemma single_column_task (epoch : nat) (lv : R) (lvs : list R)
    (p t : ndarray) (B c : nat) :
  shape p = (B, 1%nat) ->
  shape t = (B, c) ->
  combined_loss epoch (lv :: lvs) [p] [t] =
    Ok (mean_over B
          (fun k =>
             big_sum c
               (fun j => exp (- lv) * (item p k 0 - item t k j) ^ 2 + lv))).
Proof.
  unfold shape. intros Hp Ht.
  injection Hp as Hpr Hpc. injection Ht as Htr Htc.
  unfold combined_loss.
  rewrite (batch_loss_eval (lv :: lvs) [p] [t] B); cbn [length]; try lia.
  - cbn [bind fst]. f_equal. apply mean_over_ext. intros k Hk.
    rewrite big_sum_S, big_sum_0, Rplus_0_l.
    unfold task_loss, task_term, diff_cols, precision. cbn [nth].
    rewrite Hpr, Hpc, Htr, Htc.
    assert (Hc : broadcast_dim RuntimeError 1 c = Ok c).
    { unfold broadcast_dim. destruct (Nat.eqb_spec 1 c); [congruence|].
      reflexivity. }
    rewrite Hc. apply big_sum_ext. intros j Hj.
    rewrite (stride_id B k Hk), (stride_id c j Hj).
    unfold stride at 1. cbn [Nat.eqb]. reflexivity.
  - intros i Hi. assert (i = 0%nat) by lia. subst i. cbn [nth].
    rewrite Hpr, Hpc, Htr, Htc, broadcast_dim_refl. split; [reflexivity|].
    exists c. unfold broadcast_dim. destruct (Nat.eqb_spec 1 c); [congruence|].
    reflexivity.
Qed.

(** ** C1: the combined loss *)

(** On rank-2 tensors the task loop is [loss_body]. *)
Lemma loss_body_rank2 (log_vars : list R) (y_hat y : list ndarray) (e : env) :
  loss_body_t log_vars (map Rank2 y_hat) (map Rank2 y) e
  = loss_body log_vars y_hat y e.
Proof.
  unfold loss_body_t, loss_body, getitem. rewrite !nth_error_map.
  destruct (nth_error log_vars (var_i e)) as [lv|]; [|reflexivity].
  destruct (nth_error y_hat (var_i e)) as [p|]; [|reflexivity].
  destruct (nth_error y (var_i e)) as [t|]; [|reflexivity].
  cbn [option_map bind tensor_sub].
  destruct (broadcast2 RuntimeError Rminus p t) as [d|err]; reflexivity.
Qed.

Lemma combined_loss_rank2 (epoch : nat) (log_vars : list R)
    (y_hat y : list ndarray) :
  combined_loss_t epoch log_vars (map Rank2 y_hat) (map Rank2 y)
  = combined_loss epoch log_vars y_hat y.
Proof.
  unfold combined_loss_t, combined_loss, batch_loss_t, batch_loss. cbv zeta.
  rewrite length_map.
  rewrite (for_range_ext (seq 0 (length y))
             (fun i e => loss_body_t log_vars (map Rank2 y_hat)
                           (map Rank2 y) (set_i i e))
             (fun i e => loss_body log_vars y_hat y (set_i i e))).
  - reflexivity.
  - intros k s _. apply loss_body_rank2.
Qed.

(** C1, as the code has it.  With at least one task, a [log_var] entry
    for every task, and predictions and targets that are rank-2 tensors
    [(batch, output)], every prediction of the shape of its target, with
    one batch size [B >= 1] for all tasks, the loss of the training loop is
    the mean over the batch of the sum over tasks of
    [sum_over_output_dims(exp(-log_var_i) * (predictions_i - targets_i)^2
    + log_var_i)].  In particular [log_var = [0, 0]], one task, one
    example, prediction 5 and target 3 give exactly 4, as tensors of shape
    [(1,)] and as tensors of shape [(1, 1)]. *)
Theorem combined_loss_refines_spec :
  (forall (epoch : nat) (log_var : list R) (predictions targets : list ndarray)
          (B : nat),
      (0 < B)%nat ->
      (0 < length targets)%nat ->
      (length targets <= length log_var)%nat ->
      length predictions = length targets ->
      (forall i, (i < length targets)%nat ->
         shape (nth i predictions empty_array)
           = shape (nth i targets empty_array)
         /\ nrows (nth i targets empty_array) = B) ->
      combined_loss_t epoch log_var (map Rank2 predictions) (map Rank2 targets)
        = Ok (Num (spec_loss B log_var (map Rank2 predictions)
                     (map Rank2 targets))))
  /\ (forall epoch : nat,
        combined_loss_t epoch [0; 0] [Rank1 [5]] [Rank1 [3]] = Ok (Num 4))
  /\ (forall epoch : nat,
        combined_loss_t epoch [0; 0]
          [Rank2 (Array 1 [[5]])] [Rank2 (Array 1 [[3]])] = Ok (Num 4)).
Proof.
  assert (General : forall epoch log_var predictions targets B,
      (0 < B)%nat ->
      (0 < length targets)%nat ->
      (length targets <= length log_var)%nat ->
      length predictions = length targets ->
      (forall i, (i < length targets)%nat ->
         shape (nth i predictions empty_array)
           = shape (nth i targets empty_array)
         /\ nrows (nth i targets empty_array) = B) ->
      combined_loss_t epoch log_var (map Rank2 predictions) (map Rank2 targets)
        = Ok (Num (spec_loss B log_var (map Rank2 predictions)
                     (map Rank2 targets)))).
  { intros epoch lv yh y B HB HT Hlv Hyh Hsh.
    rewrite combined_loss_rank2. unfold combined_loss.
    rewrite (batch_loss_eval lv yh y B); try lia.
    - cbn [bind fst]. f_equal. unfold mean_over.
      destruct (Nat.eqb_spec B 0) as [|_]; [lia|].
      unfold spec_loss. rewrite length_map. do 2 f_equal.
      apply big_sum_ext. intros k Hk.
      apply big_sum_ext. intros i Hi.
      destruct (Hsh i Hi) as [Heq HBi]. unfold shape in Heq.
      injection Heq as Hr Hc.
      unfold task_loss, task_term, per_example_loss, diff_cols, precision.
      rewrite Hc, broadcast_dim_refl. cbv zeta.
      unfold empty_tensor. rewrite !(map_nth Rank2).
      cbn [sum_over_output_dims].
      apply big_sum_ext. intros j Hj.
      rewrite Hr, HBi, !(stride_id B k Hk), !(stride_id _ j Hj).
      reflexivity.
    - intros i Hi. destruct (Hsh i Hi) as [Heq HBi]. unfold shape in Heq.
      injection Heq as Hr Hc. rewrite Hr, HBi, Hc, !broadcast_dim_refl.
      split; [reflexivity | now exists (ncols (nth i y empty_array))]. }
  split; [exact General|]. split.
  - intros epoch. unfold combined_loss_t, batch_loss_t, loss_body_t, getitem.
    cbn [length seq for_range set_loss set_i var_i var_loss nth_error bind
         tensor_sub broadcast_dim Nat.eqb stride map nth tensor_map
         tensor_sum_last Rsum fold_right iadd_reduced torch_mean fst].
    unfold precision. rewrite Ropp_0, exp_0.
    do 2 f_equal. cbn [pow]. lra.
  - intros epoch.
    change [Rank2 (Array 1 [[5]])] with (map Rank2 [Array 1 [[5]]]).
    change [Rank2 (Array 1 [[3]])] with (map Rank2 [Array 1 [[3]]]).
    rewrite (General epoch [0; 0] [Array 1 [[5]]] [Array 1 [[3]]] 1%nat);
      cbn [length]; try lia.
    + do 2 f_equal.
      unfold spec_loss, per_example_loss, big_sum, item, empty_tensor.
      cbn [length seq map Rsum fold_right nth ncols rows INR
           sum_over_output_dims].
      unfold big_sum.
      cbn [length seq map Rsum fold_right nth ncols rows INR].
      unfold item. cbn [nth rows].
      rewrite Ropp_0, exp_0. field.
    + intros i Hi. assert (i = 0%nat) by lia. subst i. split; reflexivity.
Qed.

(** The general part of C1 on two tasks of two examples, one of two
    output columns and one of one, with non-zero [log_var]. *)
Lemma combined_loss_refines_spec_witness :
  combined_loss_t 0 [1; -1]
    (map Rank2 [Array 2 [[1; 2]; [3; 4]]; Array 1 [[5]; [6]]])
    (map Rank2 [Array 2 [[0; 1]; [1; 0]]; Array 1 [[7]; [8]]])
  = Ok (Num (spec_loss 2 [1; -1]
               (map Rank2 [Array 2 [[1; 2]; [3; 4]]; Array 1 [[5]; [6]]])
               (map Rank2 [Array 2 [[0; 1]; [1; 0]]; Array 1 [[7]; [8]]]))).
Proof.
  apply (proj1 combined_loss_refines_spec); cbn [length]; try lia.
  intros i Hi. destruct i as [|[|i]]; [split; reflexivity.. | lia].
Defined.

(** Where C1 as stated fails.  With no task [torch.mean] is applied to
    the Python integer 0 and raises.  With a batch of one example for the
    first task and of two for the second the in-place addition raises.  On
    an empty batch the loss is NaN.  On tensors with one scalar per
    example, of shape [(2,)], [torch.sum(., -1)] sums over the batch and
    the loss is the batch sum 8, where the mean over the batch is 4. *)
Lemma combined_loss_where_spec_fails :
  combined_loss_t 0 [] [] [] = Raise TypeError
  /\ combined_loss_t 0 [0; 0]
       [Rank2 (Array 1 [[5]]); Rank2 (Array 1 [[1]; [2]])]
       [Rank2 (Array 1 [[3]]); Rank2 (Array 1 [[0]; [0]])]
     = Raise RuntimeError
  /\ combined_loss_t 0 [0; 0] [Rank2 (Array 1 [])] [Rank2 (Array 1 [])]
     = Ok NaN
  /\ (combined_loss_t 0 [0; 0] [Rank1 [5; 5]] [Rank1 [3; 3]] = Ok (Num 8)
      /\ spec_loss 2 [0; 0] [Rank1 [5; 5]] [Rank1 [3; 3]] = 4).
Proof.
  split; [reflexivity|]. split; [reflexivity|]. split; [reflexivity|]. split.
  - unfold combined_loss_t, batch_loss_t, loss_body_t, getitem.
    cbn [length seq for_range set_loss set_i var_i var_loss nth_error bind
         tensor_sub broadcast_dim Nat.eqb stride map nth tensor_map
         tensor_sum_last Rsum fold_right iadd_reduced torch_mean fst].
    unfold precision. rewrite Ropp_0, exp_0.
    do 2 f_equal. cbn [pow]. lra.
  - unfold spec_loss, per_example_loss, big_sum, empty_tensor.
    cbn [length seq map Rsum fold_right nth INR sum_over_output_dims].
    rewrite Ropp_0, exp_0. cbn [pow]. lra.
Qed.

(** ** C2: a prediction of shape (20,1) against a target of shape (20,2) *)

(** C2, as the code has it.  The loss computation has no shape check: a
    prediction of shape (20,1) against a target of shape (20,2) is not
    rejected.  The subtraction broadcasts the prediction column over both
    target columns and the loss is the mean over the 20 examples of the
    sum over the two columns. *)
Theorem shape_mismatch_is_broadcast (epoch : nat) (lv : R) (lvs : list R)
    (p t : ndarray) :
  shape p = (20%nat, 1%nat) ->
  shape t = (20%nat, 2%nat) ->
  combined_loss epoch (lv :: lvs) [p] [t] =
    Ok (Num (big_sum 20
               (fun k =>
                  exp (- lv) * (item p k 0 - item t k 0) ^ 2 + lv
                  + (exp (- lv) * (item p k 0 - item t k 1) ^ 2 + lv))
             / 20)).
Proof.
  intros Hp Ht.
  rewrite (single_column_task epoch lv lvs p t 20 2 Hp Ht).
  unfold mean_over. cbn [Nat.eqb]. do 2 f_equal.
  replace (INR 20) with 20 by (cbn [INR]; lra).
  f_equal. apply big_sum_ext. intros k _. unfold big_sum.
  cbn [seq map Rsum fold_right Nat.add]. lra.
Qed.

Lemma shape_mismatch_is_broadcast_witness :
  combined_loss 0 [0; 0]
    [constant_rows 1 20 [5]] [constant_rows 2 20 [3; 3]]
  = Ok (Num (big_sum 20
               (fun k =>
                  exp (- 0) * (item (constant_rows 1 20 [5]) k 0
                               - item (constant_rows 2 20 [3; 3]) k 0) ^ 2 + 0
                  + (exp (- 0) * (item (constant_rows 1 20 [5]) k 0
                                  - item (constant_rows 2 20 [3; 3]) k 1) ^ 2
                     + 0))
             / 20)).
Proof.
  apply (shape_mismatch_is_broadcast 0 0 [0]); reflexivity.
Defined.

(** Against C2 as stated: on twenty predictions 5 of shape (20,1) and
    twenty target rows [3, 3] of shape (20,2) the loss computation raises
    nothing and returns 8, the squared error 4 counted once per target
    column. *)
Lemma shape_mismatch_not_rejected :
  combined_loss 0 [0; 0]
    [constant_rows 1 20 [5]] [constant_rows 2 20 [3; 3]]
  = Ok (Num 8).
Proof.
  rewrite (single_column_task 0 0 [0] _ _ 20 2) by reflexivity.
  unfold mean_over. cbn [Nat.eqb]. do 2 f_equal.
  rewrite Ropp_0, exp_0.
  unfold big_sum, item, constant_rows.
  cbn [seq map Rsum fold_right Nat.add nth rows repeat INR].
  lra.
Qed.

(** ** C4: the sign of the precision in float32 *)

Lemma Int_part_unit (q : R) : 0 <= q -> q < 1 -> Int_part q = 0%Z.
Proof.
  intros H0 H1. destruct (base_Int_part q) as [Hle Hgt].
  assert (IZR (Int_part q) < 1) by lra.
  assert (-1 < IZR (Int_part q)) by lra.
  apply lt_IZR in H. apply lt_IZR in H2. lia.
Qed.

Lemma Int_part_ge (q : R) (z : Z) : IZR z <= q -> (z <= Int_part q)%Z.
Proof.
  intros H. destruct (base_Int_part q) as [_ Hgt].
  assert (IZR z < IZR (Int_part q) + 1) by lra.
  rewrite <- plus_IZR in H0. apply lt_IZR in H0. lia.
Qed.

Lemma nearest_even_ge (q : R) (z : Z) : IZR z <= q -> (z <= nearest_even q)%Z.
Proof.
  intros H. apply Int_part_ge in H. unfold nearest_even.
  destruct (Rlt_dec _ _); [exact H|].
  destruct (Rlt_dec _ _); [lia|].
  destruct (Z.even _); lia.
Qed.

Lemma nearest_even_small (q : R) : 0 <= q -> q < 1 / 2 -> nearest_even q = 0%Z.
Proof.
  intros H0 H1. unfold nearest_even.
  rewrite (Int_part_unit q H0) by lra.
  destruct (Rlt_dec _ _) as [_|Hn]; [reflexivity|]. exfalso. apply Hn. lra.
Qed.

Lemma ln2_pos : 0 < ln 2.
Proof. pose proof ln_lt_2. lra. Qed.

Lemma powerRZ_ilog2 (a : R) : 0 < a -> powerRZ 2 (ilog2 a) <= a.
Proof.
  intros Ha. rewrite powerRZ_Rpower by lra. unfold Rpower, ilog2.
  destruct (base_Int_part (ln a / ln 2)) as [Hle _].
  pose proof ln2_pos as H2.
  rewrite <- (exp_ln a Ha) at 2.
  destruct (Rle_lt_or_eq_dec _ _ Hle) as [Hlt|Heq].
  - left. apply exp_increasing.
    apply (Rmult_lt_compat_r (ln 2)) in Hlt; [|exact H2].
    unfold Rdiv in Hlt. rewrite Rmult_assoc, Rinv_l, Rmult_1_r in Hlt by lra.
    exact Hlt.
  - right. f_equal. rewrite Heq. field. lra.
Qed.

Lemma powerRZ2_le (e e' : Z) : (e <= e')%Z -> powerRZ 2 e <= powerRZ 2 e'.
Proof.
  intros H. replace e' with (e + (e' - e))%Z by lia.
  rewrite powerRZ_add by lra.
  assert (0 < powerRZ 2 e) by (apply powerRZ_lt; lra).
  assert (1 <= powerRZ 2 (e' - e)).
  { destruct (e' - e)%Z as [|p|p] eqn:E; [cbn; lra| |lia].
    cbn [powerRZ]. apply pow_R1_Rle. lra. }
  nra.
Qed.

(** The exponent rounding picks is not above the number. *)
Lemma round_exponent_le (a : R) :
  powerRZ 2 (-149) <= a ->
  powerRZ 2 (Z.max (-149) (ilog2 a - 23)) <= a.
Proof.
  intros Ha.
  assert (0 < a).
  { assert (0 < powerRZ 2 (-149)) by (apply powerRZ_lt; lra). lra. }
  destruct (Z.max_spec (-149) (ilog2 a - 23)) as [[_ ->]|[_ ->]].
  - apply Rle_trans with (powerRZ 2 (ilog2 a)); [|now apply powerRZ_ilog2].
    apply powerRZ2_le. lia.
  - exact Ha.
Qed.

Lemma round32_positive (x : R) :
  powerRZ 2 (-149) <= x -> f32_positive (round32 x) = true.
Proof.
  intros Hx.
  assert (H149 : 0 < powerRZ 2 (-149)) by (apply powerRZ_lt; lra).
  assert (Hpos : 0 < x) by lra.
  unfold round32.
  destruct (Rlt_dec x 0) as [Hneg|_]; [lra|].
  rewrite (Rabs_pos_eq x) by lra.
  set (e := Z.max (-149) (ilog2 x - 23)).
  assert (He : powerRZ 2 e <= x) by now apply round_exponent_le.
  assert (Hpe : 0 < powerRZ 2 e) by (apply powerRZ_lt; lra).
  assert (Hm : (1 <= nearest_even (x / powerRZ 2 e))%Z).
  { apply nearest_even_ge. apply (Rmult_le_reg_r (powerRZ 2 e)); [exact Hpe|].
    unfold Rdiv. rewrite Rmult_assoc, Rinv_l, Rmult_1_r by lra. lra. }
  destruct (Rle_dec _ _); cbn [f32_positive]; [reflexivity|].
  apply Z.ltb_lt. lia.
Qed.

Lemma round32_not_negative (x : R) :
  0 <= x -> f32_negative_or_nan (round32 x) = false.
Proof.
  intros Hx. unfold round32.
  destruct (Rlt_dec x 0) as [Hneg|_]; [lra|].
  destruct (Rle_dec _ _); reflexivity.
Qed.

Lemma exp_nat (n : nat) : exp (INR n) = exp 1 ^ n.
Proof.
  induction n as [|n IH].
  - cbn. apply exp_0.
  - rewrite S_INR, exp_plus, IH. cbn [pow]. ring.
Qed.

Lemma exp_200_large : 2 ^ 150 < exp 200.
Proof.
  replace 200 with (INR 200) by (rewrite INR_IZR_INZ; reflexivity).
  rewrite exp_nat.
  assert (H2 : 2 <= exp 1) by (pose proof (exp_ineq1 1); lra).
  apply Rlt_le_trans with (2 ^ 200).
  - apply Rlt_pow; [lra|lia].
  - apply pow_incr. lra.
Qed.

Lemma round32_exp_minus_200 : round32 (exp (Ropp 200)) = F32_finite false 0 (-149).
Proof.
  pose proof (exp_pos (Ropp 200)) as Hpos.
  pose proof exp_200_large as Hbig.
  assert (Hinv : exp (Ropp 200) * 2 ^ 150 < 1).
  { rewrite exp_Ropp. apply (Rmult_lt_reg_l (exp 200)); [apply exp_pos|].
    rewrite <- Rmult_assoc, Rinv_r by (apply Rgt_not_eq, exp_pos).
    rewrite Rmult_1_l, Rmult_1_r. exact Hbig. }
  unfold round32.
  destruct (Rlt_dec (exp (Ropp 200)) 0) as [Hneg|_]; [lra|].
  rewrite (Rabs_pos_eq _ (Rlt_le _ _ Hpos)).
  assert (He : Z.max (-149) (ilog2 (exp (Ropp 200)) - 23) = (-149)%Z).
  { apply Z.max_l. unfold ilog2. rewrite ln_exp.
    destruct (base_Int_part (Ropp 200 / ln 2)) as [Hle _].
    assert (Hln : ln 2 <= 1).
    { rewrite <- (ln_exp 1). destruct (Rle_lt_or_eq_dec 2 (exp 1)) as [H|H].
      - pose proof (exp_ineq1 1). lra.
      - left. apply ln_increasing; lra.
      - right. now rewrite H. }
    pose proof ln2_pos as H2.
    assert (Ropp 200 / ln 2 <= Ropp 200).
    { apply (Rmult_le_reg_r (ln 2)); [exact H2|].
      unfold Rdiv. rewrite Rmult_assoc, Rinv_l, Rmult_1_r by lra. nra. }
    assert (IZR (Int_part (Ropp 200 / ln 2)) < IZR (-126)) by lra.
    apply lt_IZR in H0. lia. }
  rewrite He.
  assert (Hp : powerRZ 2 (-149) = / 2 ^ 149) by reflexivity.
  assert (H149 : 0 < 2 ^ 149) by (apply pow_lt; lra).
  assert (Hq : exp (Ropp 200) / powerRZ 2 (-149) < 1 / 2).
  { rewrite Hp. unfold Rdiv. rewrite Rinv_inv.
    replace (2 ^ 150) with (2 * 2 ^ 149) in Hinv by (cbn [pow]; ring).
    nra. }
  rewrite nearest_even_small; [| |exact Hq].
  - destruct (Rle_dec _ _) as [Hover|_]; [|reflexivity].
    exfalso. rewrite Rmult_0_l in Hover.
    assert (0 < powerRZ 2 128) by (apply powerRZ_lt; lra). lra.
  - apply Rmult_le_pos; [lra|]. left. apply Rinv_0_lt_compat.
    apply powerRZ_lt. lra.
Qed.

(** At the initial [log_var = 0.0] the model gives [1.0 = 2^23 * 2^-23]. *)
Lemma precision32_initial :
  precision32 (F32_finite false 0 0) = F32_finite false 8388608 (-23).
Proof.
  unfold precision32. cbn [f32_neg torch_exp F32_value negb].
  replace (-1 * (0 * powerRZ 2 0)) with 0 by ring.
  rewrite exp_0. unfold round32.
  destruct (Rlt_dec 1 0) as [H|_]; [lra|].
  rewrite Rabs_R1. unfold ilog2. rewrite ln_1.
  replace (0 / ln 2) with 0 by (unfold Rdiv; ring).
  rewrite (Int_part_unit 0) by lra.
  change (Z.max (-149) (0 - 23)) with (-23)%Z.
  assert (Hp : powerRZ 2 (-23) = / 2 ^ 23) by reflexivity.
  assert (Hq : 1 / powerRZ 2 (-23) = IZR 8388608).
  { rewrite Hp. unfold Rdiv. rewrite Rinv_inv, Rmult_1_l. cbn [pow]. lra. }
  assert (Hn : nearest_even (IZR 8388608) = 8388608%Z).
  { unfold nearest_even.
    assert (Hi : Int_part (IZR 8388608) = 8388608%Z).
    { destruct (base_Int_part (IZR 8388608)) as [Hle Hgt].
      apply le_IZR in Hle.
      assert (IZR 8388608 < IZR (Int_part (IZR 8388608) + 1)).
      { rewrite plus_IZR. lra. }
      apply lt_IZR in H. lia. }
    rewrite Hi, Rminus_diag.
    destruct (Rlt_dec 0 (1 / 2)) as [_|Hn]; [reflexivity|]. exfalso.
    apply Hn. lra. }
  rewrite Hq, Hn.
  destruct (Rle_dec _ _) as [Hover|_]; [|reflexivity].
  exfalso. rewrite <- Hq in Hover. unfold Rdiv in Hover.
  rewrite Rmult_1_l, Rinv_l in Hover
    by (apply Rgt_not_eq, powerRZ_lt; lra).
  assert (1 < powerRZ 2 128).
  { change (powerRZ 2 128) with (2 ^ 128). apply Rlt_pow_R1; [lra|lia]. }
  lra.
Qed.

Lemma F32_value_neg (f : float32) : F32_value (f32_neg f) = - F32_value f.
Proof. destruct f as [|s|[|] m e]; cbn; ring. Qed.

Lemma f32_200_value : F32_value f32_200 = 200.
Proof.
  unfold f32_200, F32_value.
  change (powerRZ 2 (-16)) with (/ 2 ^ 16).
  replace (IZR 13107200) with (200 * 2 ^ 16) by (cbn [pow]; lra).
  field.
Qed.

(** C4, as the code has it.  [log_vars] is a float32 parameter.  For
    every finite float32 [log_var] the weight
    [precision = torch.exp(-log_var)] is never negative and never NaN, and
    it is strictly positive whenever the exact exponential
    [exp(-log_var)] is at least [2^-149], the smallest positive float32
    ([log_var] up to about 103). *)
Theorem precision32_sign (negative : bool) (m e : Z) :
  let log_var := F32_finite negative m e in
  f32_negative_or_nan (precision32 log_var) = false
  /\ (powerRZ 2 (-149) <= exp (- F32_value log_var) ->
      f32_positive (precision32 log_var) = true).
Proof.
  cbv zeta. unfold precision32. cbn [f32_neg torch_exp].
  change (F32_value (F32_finite (negb negative) m e))
    with (F32_value (f32_neg (F32_finite negative m e))).
  rewrite F32_value_neg. split.
  - apply round32_not_negative. left. apply exp_pos.
  - apply round32_positive.
Qed.

Lemma powerRZ2_m149_le_1 : powerRZ 2 (-149) <= 1.
Proof.
  change 1 with (powerRZ 2 0). apply powerRZ2_le. lia.
Qed.

Lemma precision32_sign_witness :
  f32_positive (precision32 (F32_finite false 0 0)) = true.
Proof.
  apply (precision32_sign false 0 0).
  cbn [F32_value]. rewrite Rmult_0_l, Rmult_0_r, Ropp_0, exp_0.
  apply powerRZ2_m149_le_1.
Defined.

(** Against C4 as stated: at the finite [log_var = 200.0] the exponential
    [exp(-200)] is below half of [2^-149] and rounds to zero, so the
    precision is [0.0], not a positive number. *)
Lemma precision32_underflow :
  precision32 f32_200 = F32_finite false 0 (-149)
  /\ f32_positive (precision32 f32_200) = false.
Proof.
  assert (H : precision32 f32_200 = F32_finite false 0 (-149)).
  { unfold precision32. cbn [f32_neg f32_200 torch_exp].
    change (F32_value (F32_finite (negb false) 13107200 (-16)))
      with (F32_value (f32_neg f32_200)).
    rewrite F32_value_neg, f32_200_value. apply round32_exp_minus_200. }
  split; [exact H|]. now rewrite H.
Qed.

(** ** C6: the initial log-variances *)

(** C6.  Constructing the wrapper for [T] tasks gives a [log_vars] vector
    of length exactly [T] whose every entry is zero, so that every task
    starts with precision [exp(-0) = 1]. *)
Theorem init_log_vars_zero (T : nat) :
  let m := MultiTaskLossWrapper.init T in
  MultiTaskLossWrapper.num_tasks m = T
  /\ length (MultiTaskLossWrapper.log_vars m) = T
  /\ Forall (fun lv => lv = 0 /\ precision lv = 1)
       (MultiTaskLossWrapper.log_vars m).
Proof.
  cbn. repeat split.
  - apply repeat_length.
  - apply Forall_forall. intros x Hx. apply repeat_spec in Hx. subst x.
    unfold precision. rewrite Ropp_0, exp_0. split; reflexivity.
Qed.

(** ** C10: [forward] passes everything through *)

(** C10.  [forward] returns the pair of the module's [log_vars] and the
    predictions it was given, unchanged, whatever they are, and the module
    after the call is the module before it.  No loss is among the values
    returned: what the training loop gets from the model is the wrapper's
    [log_vars] and the outputs of the heads, and the loss is computed from
    them by the loop. *)
Theorem forward_passes_through (self : MultiTaskLossWrapper.t)
    (X : list ndarray) :
  MultiTaskLossWrapper.forward self X
    = ((MultiTaskLossWrapper.log_vars self, X), self)
  /\ fst (fst (MultiTaskLossWrapper.forward self X))
       = MultiTaskLossWrapper.log_vars self
  /\ snd (fst (MultiTaskLossWrapper.forward self X)) = X
  /\ snd (MultiTaskLossWrapper.forward self X) = self
  /\ forall (params : Type) (wrapper : params -> MultiTaskLossWrapper.t)
            (heads : params -> ndarray -> result (list ndarray))
            (p : params) (X_ : ndarray),
       model params wrapper heads p X_
         = (hs <- heads p X_ ;;
            Ok (MultiTaskLossWrapper.log_vars (wrapper p), hs)).
Proof. repeat split. Qed.

(** ** Entries of arrays *)

Lemma nth_map_seq {A : Type} (F : nat -> A) (n k : nat) (d : A) :
  (k < n)%nat -> nth k (map F (seq 0 n)) d = F k.
Proof.
  intros Hk.
  rewrite (nth_indep _ d (F 0%nat)) by now rewrite length_map, length_seq.
  rewrite map_nth, seq_nth by exact Hk. reflexivity.
Qed.

Lemma item_build (F : nat -> nat -> R) (r c k j : nat) :
  (k < r)%nat -> (j < c)%nat ->
  item (Array c (map (fun k => map (fun j => F k j) (seq 0 c)) (seq 0 r))) k j
    = F k j.
Proof.
  intros Hk Hj. unfold item. cbn [rows].
  rewrite (nth_map_seq (fun k => map (fun j => F k j) (seq 0 c)) r k [] Hk).
  apply (nth_map_seq (F k) c j 0 Hj).
Qed.

Lemma item_map_array (f : R -> R) (a : ndarray) (k j : nat) :
  wf a -> (k < nrows a)%nat -> (j < ncols a)%nat ->
  item (map_array f a) k j = f (item a k j).
Proof.
  unfold wf, nrows, item, map_array. cbn [rows]. intros Hwf Hk Hj.
  rewrite (nth_indep _ [] (map f [])) by now rewrite length_map.
  rewrite map_nth.
  assert (Hlen : length (nth k (rows a) []) = ncols a).
  { rewrite Forall_forall in Hwf. apply Hwf. now apply nth_In. }
  rewrite (nth_indep _ 0 (f 0)) by (rewrite length_map; lia).
  apply map_nth.
Qed.

Lemma wf_map_array (f : R -> R) (a : ndarray) : wf a -> wf (map_array f a).
Proof.
  unfold wf, map_array. cbn [rows ncols]. intros H.
  apply Forall_map. eapply Forall_impl; [|exact H].
  intros r Hr. cbn. now rewrite length_map.
Qed.

Lemma wf_build (F : nat -> nat -> R) (r c : nat) :
  wf (Array c (map (fun k => map (fun j => F k j) (seq 0 c)) (seq 0 r))).
Proof.
  unfold wf. cbn [rows ncols]. apply Forall_map, Forall_forall.
  intros k _. now rewrite length_map, length_seq.
Qed.

(** Adding two arrays of one shape: no broadcasting happens and the sum is
    entry by entry. *)
Lemma broadcast2_same_shape (err : exn) (f : R -> R -> R) (a b : ndarray)
    (r c : nat) :
  shape a = (r, c) -> shape b = (r, c) ->
  exists y,
    broadcast2 err f a b = Ok y
    /\ shape y = (r, c) /\ wf y
    /\ forall k j, (k < r)%nat -> (j < c)%nat ->
         item y k j = f (item a k j) (item b k j).
Proof.
  unfold shape. intros Ha Hb.
  injection Ha as Har Hac. injection Hb as Hbr Hbc.
  unfold broadcast2. rewrite Har, Hac, Hbr, Hbc, !broadcast_dim_refl.
  cbn [bind]. eexists. split; [reflexivity|]. repeat split.
  - unfold shape, nrows. cbn [rows ncols]. now rewrite length_map, length_seq.
  - apply wf_build.
  - intros k j Hk Hj.
    rewrite (item_build
               (fun k j => f (item a (stride r k) (stride c j))
                             (item b (stride r k) (stride c j))) r c k j Hk Hj).
    now rewrite (stride_id r k Hk), (stride_id c j Hj).
Qed.

(** ** Fancy indexing *)

Lemma take_rows_in_range (rs : list (list R)) (s : list nat) :
  Forall (fun k => (k < length rs)%nat) s ->
  take_rows rs s = Ok (map (fun k => nth k rs []) s).
Proof.
  induction s as [|k s IH]; intros H; [reflexivity|].
  inversion H as [|? ? Hk Hs]; subst. cbn [take_rows map].
  unfold getitem. rewrite (nth_error_nth' rs [] Hk). cbn [bind].
  now rewrite (IH Hs).
Qed.

Lemma index_rows_in_range (a : ndarray) (s : list nat) :
  Forall (fun k => (k < nrows a)%nat) s ->
  index_rows a s = Ok (Array (ncols a) (map (fun k => nth k (rows a) []) s)).
Proof.
  intros H. unfold index_rows. now rewrite (take_rows_in_range _ _ H).
Qed.

Lemma shape_map_array (f : R -> R) (a : ndarray) :
  shape (map_array f a) = shape a.
Proof.
  unfold shape, nrows, map_array. cbn [rows ncols]. now rewrite length_map.
Qed.

(** ** The generator and the shuffle on an arbitrary random source *)

Section RandomSourceFacts.

Variables np_rng torch_rng : Type.
Variable randn : nat -> nat -> np_rng -> ndarray * np_rng.
Variable shuffle : list nat -> np_rng -> list nat * np_rng.

(** What the notebook relies on: [randn(r, c)] returns an array of shape
    [(r, c)], and [shuffle] permutes its argument. *)
Hypothesis randn_shape : forall r c s,
  wf (fst (randn r c s)) /\ shape (fst (randn r c s)) = (r, c).
Hypothesis shuffle_perm : forall l s, Permutation l (fst (shuffle l s)).

(** One linear head of the generator: [X.dot(w) + b + sigma * noise]. *)
Lemma gen_data_head (X noise : ndarray) (n : nat) (w b sigma : R) :
  wf X -> shape X = (n, 1%nat) -> wf noise -> shape noise = (n, 1%nat) ->
  exists Y,
    broadcast2 ValueError Rplus
      (map_array (fun x => x + b) (map_array (fun x => x * w) X))
      (map_array (fun x => sigma * x) noise) = Ok Y
    /\ shape Y = (n, 1%nat) /\ wf Y
    /\ forall k j, (k < n)%nat -> (j < 1)%nat ->
         item Y k j = w * item X k j + b + sigma * item noise k j.
Proof.
  intros WX SX Wn Sn.
  destruct (broadcast2_same_shape ValueError Rplus
              (map_array (fun x => x + b) (map_array (fun x => x * w) X))
              (map_array (fun x => sigma * x) noise) n 1)
    as [Y [EY [SY [WY IY]]]].
  - now rewrite !shape_map_array.
  - now rewrite shape_map_array.
  - exists Y. repeat split; try assumption.
    intros k j Hk Hj. rewrite (IY k j Hk Hj).
    unfold shape in SX, Sn.
    injection SX as SXr SXc. injection Sn as Snr Snc.
    assert (HkX : (k < nrows X)%nat) by lia.
    assert (HjX : (j < ncols X)%nat) by lia.
    assert (Hkn : (k < nrows noise)%nat) by lia.
    assert (Hjn : (j < ncols noise)%nat) by lia.
    rewrite (item_map_array (fun x => x + b) (map_array (fun x => x * w) X) k j).
    + rewrite (item_map_array (fun x => x * w) X k j WX HkX HjX).
      rewrite (item_map_array (fun x => sigma * x) noise k j Wn Hkn Hjn).
      ring.
    + now apply wf_map_array.
    + unfold nrows, map_array. cbn [rows]. rewrite length_map. exact HkX.
    + exact HjX.
Qed.

(** C3.  For every [N], [gen_data(N)] makes three successive draws of the
    standard normal sampler: [X] of shape [(N, input_size)], then [noise1]
    of shape [(N, output1_size)], then [noise2] of shape
    [(N, output2_size)], each from the generator state the previous draw
    left.  It raises nothing and returns [(X, Y1, Y2)] with
    [Y1 = 2 * X + 8 + 10 * noise1] and [Y2 = 3 * X + 3 + 1 * noise2],
    entry by entry.  That the sampler's draws are independent standard
    normals is the contract of [np.random.randn], a parameter here. *)
Theorem gen_data_linear_plus_noise (N : nat) (w : world np_rng torch_rng) :
  exists (X noise1 noise2 Y1 Y2 : ndarray) (s1 s2 s3 : np_rng),
    randn N input_size (np_state _ _ w) = (X, s1)
    /\ randn N output1_size s1 = (noise1, s2)
    /\ randn N output2_size s2 = (noise2, s3)
    /\ gen_data _ _ randn N w = (Ok (X, Y1, Y2), set_np _ _ s3 w)
    /\ shape X = (N, input_size)
    /\ shape noise1 = (N, output1_size)
    /\ shape noise2 = (N, output2_size)
    /\ shape Y1 = (N, output1_size) /\ wf Y1
    /\ shape Y2 = (N, output2_size) /\ wf Y2
    /\ forall k j, (k < N)%nat -> (j < 1)%nat ->
         item Y1 k j = 2 * item X k j + 8 + 10 * item noise1 k j
         /\ item Y2 k j = 3 * item X k j + 3 + 1 * item noise2 k j.
Proof.
  destruct (randn N input_size (np_state _ _ w)) as [X s1] eqn:E1.
  destruct (randn N output1_size s1) as [noise1 s2] eqn:E2.
  destruct (randn N output2_size s2) as [noise2 s3] eqn:E3.
  pose proof (randn_shape N input_size (np_state _ _ w)) as [WX SX].
  pose proof (randn_shape N output1_size s1) as [W1 S1].
  pose proof (randn_shape N output2_size s2) as [W2 S2].
  rewrite E1 in WX, SX. rewrite E2 in W1, S1. rewrite E3 in W2, S2.
  cbn [fst] in *.
  destruct (gen_data_head X noise1 N 2 8 10 WX SX W1 S1)
    as [Y1 [EY1 [SY1 [WY1 IY1]]]].
  destruct (gen_data_head X noise2 N 3 3 1 WX SX W2 S2)
    as [Y2 [EY2 [SY2 [WY2 IY2]]]].
  exists X, noise1, noise2, Y1, Y2, s1, s2, s3.
  repeat split; try assumption.
  - unfold gen_data, bindNB, np_random_randn, lift, ret.
    rewrite E1. cbn [np_state set_np]. rewrite E2. cbn [np_state set_np].
    rewrite EY1. rewrite E3. cbn [np_state set_np torch_state].
    rewrite EY2. reflexivity.
  - now apply IY1.
  - now apply IY2.
Qed.

(** C5.  With equal row counts [shuffle_data] raises nothing and there is
    one permutation [s] of the row indices with [X' = X[s]],
    [Y1' = Y1[s]] and [Y2' = Y2[s]]: row [k] of the three outputs is row
    [s(k)] of the three inputs. *)
Theorem shuffle_data_shared_permutation (X Y1 Y2 : ndarray)
    (w : world np_rng torch_rng) :
  nrows Y1 = nrows X ->
  nrows Y2 = nrows X ->
  exists (s : list nat) (X' Y1' Y2' : ndarray) (w' : world np_rng torch_rng),
    Permutation (seq 0 (nrows X)) s
    /\ shuffle_data _ _ shuffle X Y1 Y2 w = (Ok (X', Y1', Y2'), w')
    /\ index_rows X s = Ok X'
    /\ index_rows Y1 s = Ok Y1'
    /\ index_rows Y2 s = Ok Y2'
    /\ shape X' = shape X /\ shape Y1' = shape Y1 /\ shape Y2' = shape Y2
    /\ forall k, (k < nrows X)%nat ->
         exists r,
           nth_error s k = Some r /\ (r < nrows X)%nat
           /\ nth_error (rows X') k = nth_error (rows X) r
           /\ nth_error (rows Y1') k = nth_error (rows Y1) r
           /\ nth_error (rows Y2') k = nth_error (rows Y2) r.
Proof.
  intros H1 H2.
  destruct (shuffle (seq 0 (nrows X)) (np_state _ _ w)) as [s s'] eqn:E.
  pose proof (shuffle_perm (seq 0 (nrows X)) (np_state _ _ w)) as HP.
  rewrite E in HP. cbn [fst] in HP.
  assert (Hlen : length s = nrows X).
  { rewrite <- (Permutation_length HP). apply length_seq. }
  assert (Hin : Forall (fun k => (k < nrows X)%nat) s).
  { apply Forall_forall. intros k Hk.
    apply (Permutation_in _ (Permutation_sym HP)) in Hk.
    apply in_seq in Hk. lia. }
  pose proof (index_rows_in_range X s Hin) as EX.
  assert (Hin1 : Forall (fun k => (k < nrows Y1)%nat) s) by now rewrite H1.
  assert (Hin2 : Forall (fun k => (k < nrows Y2)%nat) s) by now rewrite H2.
  pose proof (index_rows_in_range Y1 s Hin1) as EY1.
  pose proof (index_rows_in_range Y2 s Hin2) as EY2.
  eexists s, _, _, _, _.
  split; [exact HP|].
  split.
  { unfold shuffle_data, bindNB, np_random_shuffle, lift, ret.
    rewrite E, EX, EY1, EY2. reflexivity. }
  split; [exact EX|]. split; [exact EY1|]. split; [exact EY2|].
  repeat split.
  - unfold shape, nrows. cbn [rows ncols]. rewrite length_map. now f_equal.
  - unfold shape, nrows in *. cbn [rows ncols]. rewrite length_map.
    f_equal. lia.
  - unfold shape, nrows in *. cbn [rows ncols]. rewrite length_map.
    f_equal. lia.
  - intros k Hk.
    destruct (nth_error s k) as [r|] eqn:Er.
    2:{ apply nth_error_None in Er. lia. }
    assert (Hr : (r < nrows X)%nat).
    { rewrite Forall_forall in Hin. apply Hin. eapply nth_error_In, Er. }
    exists r. cbn [rows]. rewrite !nth_error_map, Er. cbn [option_map].
    repeat split; try assumption; symmetry; apply nth_error_nth'.
    + exact Hr.
    + unfold nrows in *. lia.
    + unfold nrows in *. lia.
Qed.

End RandomSourceFacts.

(** ** The generator and the shuffle on the counter source *)

Lemma counter_randn_shape (r c : nat) (s : nat) :
  wf (fst (counter_randn r c s)) /\ shape (fst (counter_randn r c s)) = (r, c).
Proof.
  unfold counter_randn, wf, shape, nrows. cbn [fst rows ncols]. split.
  - apply Forall_forall. intros x Hx. apply repeat_spec in Hx. subst x.
    apply repeat_length.
  - now rewrite repeat_length.
Qed.

Lemma counter_shuffle_perm (l : list nat) (s : nat) :
  Permutation l (fst (counter_shuffle l s)).
Proof. apply Permutation_rev. Qed.

Lemma gen_data_linear_plus_noise_witness :
  exists (X Y1 Y2 : ndarray) (w' : world nat unit),
    gen_data nat unit counter_randn 2 (World nat unit 0%nat tt)
      = (Ok (X, Y1, Y2), w')
    /\ shape Y1 = (2%nat, 1%nat) /\ shape Y2 = (2%nat, 1%nat)
    /\ item Y1 1 0 = 2 * item X 1 0 + 8 + 10 * 1
    /\ item Y2 1 0 = 3 * item X 1 0 + 3 + 1 * 2.
Proof.
  destruct (gen_data_linear_plus_noise nat unit counter_randn
              counter_randn_shape 2 (World nat unit 0%nat tt))
    as (X & n1 & n2 & Y1 & Y2 & s1 & s2 & s3
        & E1 & E2 & E3 & EG & SX & S1 & S2 & SY1 & WY1 & SY2 & WY2 & HI).
  exists X, Y1, Y2, (set_np nat unit s3 (World nat unit 0%nat tt)).
  split; [exact EG|]. split; [exact SY1|]. split; [exact SY2|].
  destruct (HI 1%nat 0%nat ltac:(lia) ltac:(lia)) as [H1 H2].
  cbn in E1. injection E1 as EX Es1. subst s1.
  cbn in E2. injection E2 as En1 Es2. subst s2.
  cbn in E3. injection E3 as En2 Es3.
  rewrite H1, H2, <- En1, <- En2. unfold item. cbn [rows nth repeat INR].
  split; ring.
Defined.

Lemma shuffle_data_shared_permutation_witness :
  exists (s : list nat) (X' Y1' Y2' : ndarray) (w' : world nat unit),
    Permutation [0%nat; 1%nat] s
    /\ shuffle_data nat unit counter_shuffle
         (Array 1 [[1]; [2]]) (Array 1 [[10]; [20]]) (Array 1 [[3]; [6]])
         (World nat unit 0%nat tt)
       = (Ok (X', Y1', Y2'), w')
    /\ index_rows (Array 1 [[1]; [2]]) s = Ok X'
    /\ index_rows (Array 1 [[10]; [20]]) s = Ok Y1'
    /\ index_rows (Array 1 [[3]; [6]]) s = Ok Y2'.
Proof.
  destruct (shuffle_data_shared_permutation nat unit counter_shuffle
              counter_shuffle_perm
              (Array 1 [[1]; [2]]) (Array 1 [[10]; [20]]) (Array 1 [[3]; [6]])
              (World nat unit 0%nat tt) eq_refl eq_refl)
    as (s & X' & Y1' & Y2' & w' & HP & ES & EX & EY1 & EY2 & _).
  exists s, X', Y1', Y2', w'. repeat split; assumption.
Defined.

(** ** C8: the epoch index and the task loop *)

(** The task loop assigns [i] before its body reads it: with at least one
    task, neither the [i] nor the [loss] of the environment it is entered
    with is left in what it returns. *)
Lemma batch_loss_forgets_env (log_vars : list R) (y_hat : list ndarray)
    (t : ndarray) (ts : list ndarray) (e1 e2 : env) :
  batch_loss log_vars y_hat (t :: ts) e1 = batch_loss log_vars y_hat (t :: ts) e2.
Proof. destruct e1, e2. reflexivity. Qed.

Lemma combined_loss_forgets_epoch (i1 i2 : nat) (log_vars : list R)
    (y_hat y : list ndarray) :
  combined_loss i1 log_vars y_hat y = combined_loss i2 log_vars y_hat y.
Proof.
  unfold combined_loss. destruct y as [|t ts].
  - reflexivity.
  - now rewrite (batch_loss_forgets_env log_vars y_hat t ts
                   (Env i1 (PyInt 0)) (Env i2 (PyInt 0))).
Qed.

Section TrainingFacts.

Variables np_rng torch_rng : Type.
Variable shuffle : list nat -> np_rng -> list nat * np_rng.
Variable params : Type.
Variable wrapper : params -> MultiTaskLossWrapper.t.
Variable heads : params -> ndarray -> result (list ndarray).
Variable optimizer_step : params -> ndarray -> list ndarray -> params.

Local Abbreviation step :=
  (batch_step params wrapper heads optimizer_step).
Local Abbreviation epoch :=
  (epoch_body np_rng torch_rng shuffle params wrapper heads optimizer_step).

(** A batch step does not read the environment it starts in. *)
Lemma batch_step_forgets_env (j : nat) (st : tstate params) (e : env) :
  step j (set_env params e st) = step j st.
Proof.
  unfold batch_step, set_env.
  cbn [st_params st_X st_Y1 st_Y2 st_env st_epoch_loss st_losses].
  destruct (model params wrapper heads (st_params params st) _) as [out|err];
    [|reflexivity].
  cbn [bind].
  now rewrite (batch_loss_forgets_env _ _ _ _ e (st_env params st)).
Qed.

(** C8.  The loss of a batch is the same at every epoch index, for the
    same [log_vars], predictions and targets; with at least one task the
    environment after the task loop is the same as well, the epoch index
    being overwritten; and the whole body of the epoch loop, run from the
    same state, does the same at every epoch index: nothing reads the
    epoch index. *)
Theorem loss_independent_of_epoch :
  (forall (i1 i2 : nat) (log_vars : list R) (y_hat y : list ndarray),
      combined_loss i1 log_vars y_hat y = combined_loss i2 log_vars y_hat y)
  /\ (forall (i1 i2 : nat) (l1 l2 : pyval) (log_vars : list R)
             (y_hat : list ndarray) (t : ndarray) (ts : list ndarray),
        batch_loss log_vars y_hat (t :: ts) (Env i1 l1)
          = batch_loss log_vars y_hat (t :: ts) (Env i2 l2))
  /\ (forall (i1 i2 : nat) (st : tstate params) (w : world np_rng torch_rng),
        epoch i1 st w = epoch i2 st w).
Proof.
  split; [exact combined_loss_forgets_epoch|].
  split; [intros; apply batch_loss_forgets_env|].
  intros i1 i2 st w.
  unfold epoch_body, bindNB.
  destruct (shuffle_data np_rng torch_rng shuffle _ _ _ w) as [[d|err] w'];
    [|reflexivity].
  change (N / batch_size)%nat with 5%nat.
  cbn [seq for_range lift].
  pose proof (batch_step_forgets_env 0
                {| st_params := st_params params st;
                   st_X := fst (fst d);
                   st_Y1 := snd (fst d);
                   st_Y2 := snd d;
                   st_env := st_env params st;
                   st_epoch_loss := Num 0;
                   st_losses := st_losses params st |}) as H.
  unfold set_env in H.
  cbn [st_params st_X st_Y1 st_Y2 st_env st_epoch_loss st_losses] in H.
  rewrite (H (set_i i1 (st_env params st))),
          (H (set_i i2 (st_env params st))).
  reflexivity.
Qed.

End TrainingFacts.

(** ** Further properties of the notebook's code *)

(** *** Slices and batches *)

Lemma firstn_plus {A : Type} (n k : nat) (l : list A) :
  firstn (n + k) l = firstn n l ++ firstn k (skipn n l).
Proof.
  revert l. induction n as [|n IH]; intros l; [reflexivity|].
  destruct l as [|x l]; cbn [Nat.add firstn skipn app].
  - now rewrite firstn_nil.
  - now rewrite IH.
Qed.

Lemma Forall_firstn_skipn {A : Type} (P : A -> Prop) (n k : nat) (l : list A) :
  Forall P l -> Forall P (firstn k (skipn n l)).
Proof.
  intros H. apply Forall_forall. intros x Hx.
  rewrite Forall_forall in H. apply H.
  rewrite <- (firstn_skipn n l). apply in_or_app. right.
  rewrite <- (firstn_skipn k (skipn n l)). apply in_or_app. now left.
Qed.

(** X1.  A slice [a[lo:hi]] never raises: it is clipped to the rows the
    array has, keeps the column count, and every row it holds is a row of
    [a] of full length. *)
Theorem slice_clips (a : ndarray) (lo hi : nat) :
  wf a ->
  nrows (slice a lo hi) = Nat.min (hi - lo) (nrows a - lo)
  /\ ncols (slice a lo hi) = ncols a
  /\ wf (slice a lo hi)
  /\ forall k, (k < nrows (slice a lo hi))%nat ->
       nth_error (rows (slice a lo hi)) k = nth_error (rows a) (lo + k).
Proof.
  intros Hwf. unfold slice, nrows, wf in *. cbn [rows ncols].
  rewrite length_firstn, length_skipn. repeat split.
  - now apply Forall_firstn_skipn.
  - intros k Hk. rewrite nth_error_firstn.
    destruct (Nat.ltb_spec k (hi - lo)); [|lia].
    apply nth_error_skipn.
Qed.

Lemma slice_clips_witness :
  nrows (slice (Array 1 [[1]; [2]; [3]]) 2 4) = 1%nat.
Proof.
  destruct (slice_clips (Array 1 [[1]; [2]; [3]]) 2 4) as [H _].
  - repeat constructor.
  - exact H.
Defined.

Lemma batches_firstn (a : ndarray) (b m : nat) :
  batches a b m = firstn (m * b) (rows a).
Proof.
  unfold batches. induction m as [|m IH]; [reflexivity|].
  rewrite seq_S, map_app, concat_app, IH. cbn [map concat Nat.add].
  rewrite app_nil_r. unfold slice. cbn [rows].
  replace ((m + 1) * b - m * b)%nat with b by lia.
  replace (S m * b)%nat with (m * b + b)%nat by lia.
  now rewrite firstn_plus.
Qed.

(** X2.  The batches of one epoch, [a[j*b:(j+1)*b]] for [j] in
    [range(n // b)], are consecutive: one after the other they are the
    first [(n // b) * b] rows of [a], in order.  When [b] divides the
    number of rows every row is in exactly one batch; otherwise the last
    [n mod b] rows are in none.  With the notebook's [N = 100] rows and
    [batch_size = 20] the five batches are the whole dataset. *)
Theorem batches_cover (a : ndarray) (b : nat) :
  (0 < b)%nat ->
  batches a b (nrows a / b) ++ skipn (nrows a / b * b) (rows a) = rows a
  /\ length (skipn (nrows a / b * b) (rows a)) = (nrows a mod b)%nat
  /\ ((nrows a mod b = 0)%nat -> batches a b (nrows a / b) = rows a)
  /\ (nrows a = N -> batches a batch_size (N / batch_size) = rows a).
Proof.
  intros Hb. rewrite !batches_firstn. unfold nrows.
  pose proof (Nat.div_mod_eq (length (rows a)) b) as Hdm.
  repeat split.
  - apply firstn_skipn.
  - rewrite length_skipn. lia.
  - intros H0. apply firstn_all2. lia.
  - intros HN. apply firstn_all2. rewrite HN.
    change (N / batch_size * batch_size)%nat with N. lia.
Qed.

Lemma batches_cover_witness :
  batches (Array 1 [[1]; [2]; [3]; [4]; [5]]) 2 2
    ++ skipn 4 (rows (Array 1 [[1]; [2]; [3]; [4]; [5]]))
  = [[1]; [2]; [3]; [4]; [5]].
Proof.
  destruct (batches_cover (Array 1 [[1]; [2]; [3]; [4]; [5]]) 2) as [H _].
  - lia.
  - exact H.
Defined.

(** *** The shuffle on arrays of unequal row counts *)

Lemma take_rows_out_of_range (rs : list (list R)) (s : list nat) :
  Exists (fun k => (length rs <= k)%nat) s ->
  take_rows rs s = Raise IndexError.
Proof.
  induction s as [|k s IH]; intros H; [inversion H|].
  cbn [take_rows]. unfold getitem.
  destruct (nth_error rs k) as [r|] eqn:Ek; [|reflexivity].
  cbn [bind]. rewrite IH; [reflexivity|].
  inversion H as [? ? Hk|? ? Hs]; subst; [|exact Hs].
  assert (nth_error rs k = None) by now apply nth_error_None.
  congruence.
Qed.

Lemma nth_combine {A B : Type} (l : list A) (l' : list B) (k : nat)
    (x : A) (y : B) :
  (k < length l)%nat -> (k < length l')%nat ->
  nth k (List.combine l l') (x, y) = (nth k l x, nth k l' y).
Proof.
  revert l' k. induction l as [|a l IH]; intros l' k Hl Hl'; [cbn in Hl; lia|].
  destruct l' as [|b l']; [cbn in Hl'; lia|].
  destruct k as [|k]; [reflexivity|].
  cbn in Hl, Hl'. cbn [List.combine nth]. apply IH; lia.
Qed.

Lemma combine_map_same {A B C : Type} (f : C -> A) (g : C -> B) (s : list C) :
  List.combine (map f s) (map g s) = map (fun k => (f k, g k)) s.
Proof.
  induction s as [|k s IH]; [reflexivity|]. cbn. now rewrite IH.
Qed.

Lemma list_by_index {A : Type} (l : list A) (d : A) :
  l = map (fun k => nth k l d) (seq 0 (length l)).
Proof.
  apply (nth_ext _ _ d d).
  - now rewrite length_map, length_seq.
  - intros k Hk. now rewrite (nth_map_seq (fun k => nth k l d)).
Qed.

(** The examples of a dataset whose targets have at least as many rows as
    the inputs, by row index. *)
Lemma examples_by_index (X Y1 Y2 : ndarray) :
  (nrows X <= nrows Y1)%nat -> (nrows X <= nrows Y2)%nat ->
  examples X Y1 Y2
  = map (fun k => (nth k (rows X) [], nth k (rows Y1) [], nth k (rows Y2) []))
      (seq 0 (nrows X)).
Proof.
  unfold nrows, examples. intros H1 H2.
  apply (nth_ext _ _ ([], [], []) ([], [], [])).
  - rewrite !length_combine, length_map, length_seq. lia.
  - intros k Hk. rewrite !length_combine in Hk.
    rewrite nth_combine; [|rewrite length_combine; lia|lia].
    rewrite nth_combine by lia.
    rewrite (nth_map_seq
               (fun k => (nth k (rows X) [], nth k (rows Y1) [],
                          nth k (rows Y2) []))); [reflexivity|lia].
Qed.

Section ShuffleFacts.

Variables np_rng torch_rng : Type.
Variable shuffle : list nat -> np_rng -> list nat * np_rng.
Hypothesis shuffle_perm : forall l s, Permutation l (fst (shuffle l s)).

Lemma shuffled_indices (n : nat) (g : np_rng) :
  Permutation (seq 0 n) (fst (shuffle (seq 0 n) g))
  /\ forall m, (n <= m)%nat ->
       Forall (fun k => (k < m)%nat) (fst (shuffle (seq 0 n) g)).
Proof.
  pose proof (shuffle_perm (seq 0 n) g) as HP. split; [exact HP|].
  intros m Hm. apply Forall_forall. intros k Hk.
  apply (Permutation_in _ (Permutation_sym HP)) in Hk.
  apply in_seq in Hk. lia.
Qed.

(** Indexing the three arrays of a dataset with one permutation of the
    row indices of [X] rearranges its examples. *)
Lemma examples_indexed (X Y1 Y2 : ndarray) (s : list nat) :
  (nrows X <= nrows Y1)%nat -> (nrows X <= nrows Y2)%nat ->
  Permutation (seq 0 (nrows X)) s ->
  Permutation (examples X Y1 Y2)
    (examples (Array (ncols X) (map (fun k => nth k (rows X) []) s))
       (Array (ncols Y1) (map (fun k => nth k (rows Y1) []) s))
       (Array (ncols Y2) (map (fun k => nth k (rows Y2) []) s))).
Proof.
  intros H1 H2 HP.
  rewrite (examples_by_index X Y1 Y2 H1 H2).
  unfold examples. cbn [rows].
  rewrite (combine_map_same (fun k => nth k (rows X) [])
             (fun k => nth k (rows Y1) [])).
  rewrite (combine_map_same
             (fun k => (nth k (rows X) [], nth k (rows Y1) []))
             (fun k => nth k (rows Y2) [])).
  now apply Permutation_map.
Qed.

(** The shuffle on targets of at least as many rows as the inputs. *)
Lemma shuffle_data_eval (X Y1 Y2 : ndarray) (w : world np_rng torch_rng) :
  (nrows X <= nrows Y1)%nat ->
  (nrows X <= nrows Y2)%nat ->
  let s := fst (shuffle (seq 0 (nrows X)) (np_state _ _ w)) in
  shuffle_data _ _ shuffle X Y1 Y2 w
  = (Ok (Array (ncols X) (map (fun k => nth k (rows X) []) s),
         Array (ncols Y1) (map (fun k => nth k (rows Y1) []) s),
         Array (ncols Y2) (map (fun k => nth k (rows Y2) []) s)),
     set_np _ _ (snd (shuffle (seq 0 (nrows X)) (np_state _ _ w))) w).
Proof.
  intros H1 H2 s. subst s.
  destruct (shuffled_indices (nrows X) (np_state _ _ w)) as [_ Hin].
  destruct (shuffle (seq 0 (nrows X)) (np_state _ _ w)) as [s g'] eqn:E.
  cbn [fst snd] in *.
  unfold shuffle_data, bindNB, np_random_shuffle, lift, ret.
  rewrite E, (index_rows_in_range X s (Hin _ (Nat.le_refl _))),
    (index_rows_in_range Y1 s (Hin _ H1)),
    (index_rows_in_range Y2 s (Hin _ H2)).
  reflexivity.
Qed.

(** X3.  When [Y1] and [Y2] have at least as many rows as [X],
    [shuffle_data] raises nothing, every array it returns has as many rows
    as [X] (rows of [Y1] and [Y2] beyond that are dropped without notice),
    and the examples [(X'[k], Y1'[k], Y2'[k])] returned are a
    rearrangement of the examples [(X[k], Y1[k], Y2[k])] given: none is
    lost, repeated or paired with another row's targets. *)
Theorem shuffle_data_keeps_examples (X Y1 Y2 : ndarray)
    (w : world np_rng torch_rng) :
  (nrows X <= nrows Y1)%nat ->
  (nrows X <= nrows Y2)%nat ->
  exists (X' Y1' Y2' : ndarray) (w' : world np_rng torch_rng),
    shuffle_data _ _ shuffle X Y1 Y2 w = (Ok (X', Y1', Y2'), w')
    /\ nrows X' = nrows X /\ nrows Y1' = nrows X /\ nrows Y2' = nrows X
    /\ ncols X' = ncols X /\ ncols Y1' = ncols Y1 /\ ncols Y2' = ncols Y2
    /\ Permutation (examples X Y1 Y2) (examples X' Y1' Y2')
    /\ Permutation (rows X) (rows X').
Proof.
  intros H1 H2.
  destruct (shuffled_indices (nrows X) (np_state _ _ w)) as [HP _].
  assert (Hlen : length (fst (shuffle (seq 0 (nrows X)) (np_state _ _ w)))
                 = nrows X).
  { rewrite <- (Permutation_length HP). apply length_seq. }
  eexists _, _, _, _. split; [apply (shuffle_data_eval X Y1 Y2 w H1 H2)|].
  cbn [ncols].
  split; [unfold nrows at 1; cbn [rows]; now rewrite length_map|].
  split; [unfold nrows at 1; cbn [rows]; now rewrite length_map|].
  split; [unfold nrows at 1; cbn [rows]; now rewrite length_map|].
  do 3 (split; [reflexivity|]).
  split.
  - now apply examples_indexed.
  - cbn [rows]. rewrite (list_by_index (rows X) []) at 1.
    now apply Permutation_map.
Qed.

(** X4.  When [Y1] or [Y2] has fewer rows than [X], [shuffle_data] raises
    [IndexError] whatever the permutation drawn.  The exception comes
    after the shuffle of the indices and undoes nothing: the generator is
    left in the state [np.random.shuffle] left it in. *)
Theorem shuffle_data_short_targets (X Y1 Y2 : ndarray)
    (w : world np_rng torch_rng) :
  (nrows Y1 < nrows X)%nat \/ (nrows Y2 < nrows X)%nat ->
  shuffle_data _ _ shuffle X Y1 Y2 w
  = (Raise IndexError,
     set_np _ _ (snd (shuffle (seq 0 (nrows X)) (np_state _ _ w))) w).
Proof.
  intros Hshort.
  destruct (shuffled_indices (nrows X) (np_state _ _ w)) as [HP Hin].
  destruct (shuffle (seq 0 (nrows X)) (np_state _ _ w)) as [s g'] eqn:E.
  cbn [fst snd] in *.
  pose proof (index_rows_in_range X s (Hin _ (Nat.le_refl _))) as EX.
  assert (Hmiss : forall Y, (nrows Y < nrows X)%nat ->
                    index_rows Y s = Raise IndexError).
  { intros Y HY. unfold index_rows.
    rewrite take_rows_out_of_range; [reflexivity|].
    apply Exists_exists. exists (nrows Y). split; [|unfold nrows; lia].
    apply (Permutation_in _ HP). apply in_seq. lia. }
  unfold shuffle_data, bindNB, np_random_shuffle, lift, ret.
  rewrite E, EX.
  destruct (Nat.lt_ge_cases (nrows Y1) (nrows X)) as [H1|H1].
  - now rewrite (Hmiss Y1 H1).
  - rewrite (index_rows_in_range Y1 s (Hin _ H1)).
    destruct Hshort as [H|H2]; [lia|].
    now rewrite (Hmiss Y2 H2).
Qed.

End ShuffleFacts.

Lemma shuffle_data_keeps_examples_witness :
  exists (X' Y1' Y2' : ndarray) (w' : world nat unit),
    shuffle_data nat unit counter_shuffle
      (Array 1 [[1]; [2]]) (Array 1 [[10]; [20]; [30]]) (Array 1 [[3]; [6]])
      (World nat unit 0%nat tt)
    = (Ok (X', Y1', Y2'), w')
    /\ nrows Y1' = 2%nat.
Proof.
  destruct (shuffle_data_keeps_examples nat unit counter_shuffle
              counter_shuffle_perm
              (Array 1 [[1]; [2]]) (Array 1 [[10]; [20]; [30]])
              (Array 1 [[3]; [6]]) (World nat unit 0%nat tt))
    as (X' & Y1' & Y2' & w' & E & _ & H1 & _).
  - cbn. lia.
  - cbn. lia.
  - exists X', Y1', Y2', w'. split; [exact E | exact H1].
Defined.

Lemma shuffle_data_short_targets_witness :
  shuffle_data nat unit counter_shuffle
    (Array 1 [[1]; [2]]) (Array 1 [[10]]) (Array 1 [[3]; [6]])
    (World nat unit 0%nat tt)
  = (Raise IndexError, World nat unit 1%nat tt).
Proof.
  apply (shuffle_data_short_targets nat unit counter_shuffle
           counter_shuffle_perm
           (Array 1 [[1]; [2]]) (Array 1 [[10]]) (Array 1 [[3]; [6]])
           (World nat unit 0%nat tt)).
  left. cbn. lia.
Defined.

(** *** What the loss reads and when it raises *)

(** A loop one of whose rounds raises in every state raises, with an
    exception of one of its rounds. *)
Lemma for_range_raises {S : Type} (P : exn -> Prop) (ks : list nat)
    (body : nat -> S -> result S) (s : S) (k : nat) :
  In k ks ->
  (forall j s' e, In j ks -> body j s' = Raise e -> P e) ->
  (forall s', exists e, body k s' = Raise e) ->
  exists e, for_range ks body s = Raise e /\ P e.
Proof.
  revert s. induction ks as [|j ks IH]; intros s Hk HP Hraise; [inversion Hk|].
  cbn [for_range].
  destruct (body j s) as [s'|e] eqn:Ej.
  - cbn [bind]. destruct Hk as [-> | Hk].
    + destruct (Hraise s) as [e He]. congruence.
    + apply IH; [exact Hk| |exact Hraise].
      intros i s'' e Hi. apply HP. now right.
  - exists e. split; [reflexivity|]. apply (HP j s e); [now left|exact Ej].
Qed.

(** What a round of the task loop can raise: [IndexError] at an index one
    of the three sequences does not have, [RuntimeError] at shapes that do
    not broadcast. *)
Lemma loss_body_raise (log_vars : list R) (y_hat y : list ndarray) (e : env)
    (x : exn) :
  loss_body log_vars y_hat y e = Raise x ->
  (x = IndexError
   /\ ((length log_vars <= var_i e)%nat \/ (length y_hat <= var_i e)%nat
       \/ (length y <= var_i e)%nat))
  \/ x = RuntimeError.
Proof.
  unfold loss_body, getitem.
  destruct (nth_error log_vars (var_i e)) as [lv|] eqn:Elv; cbn [bind].
  2:{ intros H. injection H as <-. left. split; [reflexivity|].
      left. now apply nth_error_None. }
  destruct (nth_error y_hat (var_i e)) as [p|] eqn:Ep; cbn [bind].
  2:{ intros H. injection H as <-. left. split; [reflexivity|].
      right. left. now apply nth_error_None. }
  destruct (nth_error y (var_i e)) as [t|] eqn:Et; cbn [bind].
  2:{ intros H. injection H as <-. left. split; [reflexivity|].
      right. right. now apply nth_error_None. }
  unfold broadcast2, broadcast_dim.
  destruct (nrows p =? nrows t)%nat, (nrows p =? 1)%nat, (nrows t =? 1)%nat,
           (ncols p =? ncols t)%nat, (ncols p =? 1)%nat, (ncols t =? 1)%nat;
    cbn [bind];
    try (intros H; injection H as <-; now right);
    (destruct (var_loss e) as [z|u|s]; cbn [iadd bind];
     [discriminate
     |destruct (_ =? length u)%nat; [discriminate|];
      destruct (_ =? 1)%nat; [discriminate|];
      intros H; injection H as <-; now right
     |intros H; injection H as <-; now right]).
Qed.

(** X5.  The loss reads its inputs only as far as there are targets: the
    [log_vars] and the predictions beyond the first [len(y)] are never
    looked at, whatever they are. *)
Theorem combined_loss_reads_prefix (epoch : nat) (log_vars : list R)
    (y_hat y : list ndarray) :
  combined_loss epoch log_vars y_hat y
  = combined_loss epoch (firstn (length y) log_vars)
      (firstn (length y) y_hat) y.
Proof.
  unfold combined_loss, batch_loss. cbv zeta.
  rewrite (for_range_ext (seq 0 (length y))
             (fun i e => loss_body log_vars y_hat y (set_i i e))
             (fun i e => loss_body (firstn (length y) log_vars)
                           (firstn (length y) y_hat) y (set_i i e))).
  - reflexivity.
  - intros k s Hk. apply in_seq in Hk.
    unfold loss_body, getitem. cbn [set_i var_i].
    rewrite !nth_error_firstn.
    destruct (Nat.ltb_spec k (length y)); [reflexivity|lia].
Qed.



(** X7.  With an entry of [log_vars] and a prediction for every target, a
    task whose prediction and target differ in a dimension where neither
    has size one makes the loss raise [RuntimeError]: such a pair is never
    broadcast and no loss is computed from it, whichever task it is. *)
Theorem combined_loss_rejects_incompatible (epoch : nat) (log_vars : list R)
    (y_hat y : list ndarray) (i : nat) :
  (length y <= length log_vars)%nat ->
  (length y <= length y_hat)%nat ->
  (i < length y)%nat ->
  (nrows (nth i y_hat empty_array) <> nrows (nth i y empty_array)
   /\ nrows (nth i y_hat empty_array) <> 1%nat
   /\ nrows (nth i y empty_array) <> 1%nat)
  \/ (ncols (nth i y_hat empty_array) <> ncols (nth i y empty_array)
      /\ ncols (nth i y_hat empty_array) <> 1%nat
      /\ ncols (nth i y empty_array) <> 1%nat) ->
  combined_loss epoch log_vars y_hat y = Raise RuntimeError.
Proof.
  intros Hlv Hyh Hi Hbad.
  destruct (for_range_raises (fun e => e = RuntimeError)
              (seq 0 (length y))
              (fun i e => loss_body log_vars y_hat y (set_i i e))
              (set_loss (PyInt 0) (Env epoch (PyInt 0))) i)
    as [e [He ->]].
  - apply in_seq. lia.
  - intros j s' e Hj H. apply in_seq in Hj.
    apply loss_body_raise in H. cbn [set_i var_i] in H.
    destruct H as [[_ H] | ->]; [lia | reflexivity].
  - intros s'. exists RuntimeError.
    unfold loss_body, getitem. cbn [set_i var_i].
    rewrite (nth_error_nth' log_vars 0) by lia.
    rewrite (nth_error_nth' y_hat empty_array) by lia.
    rewrite (nth_error_nth' y empty_array) by lia.
    cbn [bind]. unfold broadcast2, broadcast_dim.
    destruct Hbad as [(H1 & H2 & H3) | (H1 & H2 & H3)].
    + apply Nat.eqb_neq in H1, H2, H3. now rewrite H1, H2, H3.
    + apply Nat.eqb_neq in H1, H2, H3. rewrite H1, H2, H3.
      destruct (nrows (nth i y_hat empty_array)
                =? nrows (nth i y empty_array))%nat; [reflexivity|].
      destruct (nrows (nth i y_hat empty_array) =? 1)%nat; [reflexivity|].
      destruct (nrows (nth i y empty_array) =? 1)%nat; reflexivity.
  - unfold combined_loss, batch_loss. cbv zeta. now rewrite He.
Qed.

Lemma combined_loss_rejects_incompatible_witness :
  combined_loss 0 [0; 0]
    [Array 1 [[5]]; Array 3 [[1; 2; 3]]]
    [Array 1 [[3]]; Array 2 [[0; 0]]] = Raise RuntimeError.
Proof.
  apply (combined_loss_rejects_incompatible 0 [0; 0]
           [Array 1 [[5]]; Array 3 [[1; 2; 3]]]
           [Array 1 [[3]]; Array 2 [[0; 0]]] 1); cbn; lia.
Defined.

(** X8.  On an empty batch (every prediction and target with no row) the
    loss is NaN and nothing is raised: each task adds an empty tensor and
    [torch.mean] of the empty total is not a number. *)
Theorem combined_loss_empty_batch (epoch : nat) (log_vars : list R)
    (y_hat y : list ndarray) :
  (0 < length y)%nat ->
  (length y <= length log_vars)%nat ->
  (length y <= length y_hat)%nat ->
  (forall i, (i < length y)%nat ->
     nrows (nth i y_hat empty_array) = 0%nat
     /\ nrows (nth i y empty_array) = 0%nat
     /\ (ncols (nth i y_hat empty_array) = ncols (nth i y empty_array)
         \/ ncols (nth i y_hat empty_array) = 1%nat
         \/ ncols (nth i y empty_array) = 1%nat)) ->
  combined_loss epoch log_vars y_hat y = Ok NaN.
Proof.
  intros HT Hlv Hyh Hsh. unfold combined_loss.
  rewrite (batch_loss_eval log_vars y_hat y 0 Hlv Hyh); [reflexivity| |exact HT].
  intros i Hi. destruct (Hsh i Hi) as (Hp & Ht & Hc).
  rewrite Hp, Ht. split; [reflexivity|].
  unfold broadcast_dim.
  destruct (Nat.eqb_spec (ncols (nth i y_hat empty_array))
              (ncols (nth i y empty_array))); [eexists; reflexivity|].
  destruct (Nat.eqb_spec (ncols (nth i y_hat empty_array)) 1);
    [eexists; reflexivity|].
  destruct (Nat.eqb_spec (ncols (nth i y empty_array)) 1);
    [eexists; reflexivity|].
  lia.
Qed.

Lemma combined_loss_empty_batch_witness :
  combined_loss 0 [0; 0] [Array 1 []; Array 1 []] [Array 1 []; Array 2 []]
  = Ok NaN.
Proof.
  apply combined_loss_empty_batch; cbn [length]; try lia.
  intros i Hi.
  destruct i as [|[|i]]; cbn; [repeat split; lia | repeat split; lia | lia].
Defined.

(** *** The value of the loss *)

(** The loss on predictions of the shapes of their targets, all of [B]
    rows: no broadcasting happens. *)
Lemma combined_loss_same_shape (epoch : nat) (log_vars : list R)
    (y_hat y : list ndarray) (B : nat) :
  (0 < length y)%nat ->
  (length y <= length log_vars)%nat ->
  (length y <= length y_hat)%nat ->
  (forall i, (i < length y)%nat ->
     shape (nth i y_hat empty_array) = shape (nth i y empty_array)
     /\ nrows (nth i y empty_array) = B) ->
  combined_loss epoch log_vars y_hat y
  = Ok (mean_over B
          (fun k =>
             big_sum (length y)
               (fun i =>
                  big_sum (ncols (nth i y empty_array))
                    (fun j =>
                       precision (nth i log_vars 0)
                       * (item (nth i y_hat empty_array) k j
                          - item (nth i y empty_array) k j) ^ 2
                       + nth i log_vars 0)))).
Proof.
  intros HT Hlv Hyh Hsh. unfold combined_loss.
  rewrite (batch_loss_eval log_vars y_hat y B Hlv Hyh); [|
    |exact HT].
  - cbn [bind fst]. f_equal. apply mean_over_ext. intros k Hk.
    apply big_sum_ext. intros i Hi.
    destruct (Hsh i Hi) as [Heq HB]. unfold shape in Heq.
    injection Heq as Hr Hc.
    unfold task_loss, task_term, diff_cols.
    rewrite Hc, broadcast_dim_refl. apply big_sum_ext. intros j Hj.
    now rewrite Hr, HB, !(stride_id B k Hk), !(stride_id _ j Hj).
  - intros i Hi. destruct (Hsh i Hi) as [Heq HB]. unfold shape in Heq.
    injection Heq as Hr Hc. rewrite Hr, HB, Hc, !broadcast_dim_refl.
    split; [reflexivity | now exists (ncols (nth i y empty_array))].
Qed.

(** X9.  With the [log_vars] of a freshly constructed wrapper the loss is
    the unweighted one: the mean over the batch of the sum, over tasks and
    output columns, of the squared errors. *)
Theorem initial_loss_unweighted (epoch n : nat) (y_hat y : list ndarray)
    (B : nat) :
  (0 < length y)%nat ->
  (length y <= n)%nat ->
  (length y <= length y_hat)%nat ->
  (forall i, (i < length y)%nat ->
     shape (nth i y_hat empty_array) = shape (nth i y empty_array)
     /\ nrows (nth i y empty_array) = B) ->
  combined_loss epoch
    (MultiTaskLossWrapper.log_vars (MultiTaskLossWrapper.init n)) y_hat y
  = Ok (mean_over B
          (fun k =>
             big_sum (length y)
               (fun i =>
                  big_sum (ncols (nth i y empty_array))
                    (fun j =>
                       (item (nth i y_hat empty_array) k j
                        - item (nth i y empty_array) k j) ^ 2)))).
Proof.
  intros HT Hn Hyh Hsh. cbn [MultiTaskLossWrapper.init
                              MultiTaskLossWrapper.log_vars].
  rewrite (combined_loss_same_shape epoch (repeat 0 n) y_hat y B HT);
    [|now rewrite repeat_length|exact Hyh|exact Hsh].
  f_equal. apply mean_over_ext. intros k _.
  apply big_sum_ext. intros i _. apply big_sum_ext. intros j _.
  rewrite nth_repeat. unfold precision. rewrite Ropp_0, exp_0. ring.
Qed.

Lemma initial_loss_unweighted_witness :
  combined_loss 0
    (MultiTaskLossWrapper.log_vars (MultiTaskLossWrapper.init 2))
    [Array 1 [[5]]; Array 1 [[1]]] [Array 1 [[3]]; Array 1 [[1]]]
  = Ok (mean_over 1
          (fun k =>
             big_sum 2
               (fun i =>
                  big_sum
                    (ncols (nth i [Array 1 [[3]]; Array 1 [[1]]] empty_array))
                    (fun j =>
                       (item (nth i [Array 1 [[5]]; Array 1 [[1]]]
                                empty_array) k j
                        - item (nth i [Array 1 [[3]]; Array 1 [[1]]]
                                  empty_array) k j) ^ 2)))).
Proof.
  apply (initial_loss_unweighted 0 2
           [Array 1 [[5]]; Array 1 [[1]]] [Array 1 [[3]]; Array 1 [[1]]] 1);
    cbn [length]; try lia.
  intros i Hi. destruct i as [|[|i]]; [split; reflexivity.. | lia].
Defined.

(** *** What the training loop keeps *)

Section TrainingLoopFacts.

Variables np_rng torch_rng : Type.
Variable shuffle : list nat -> np_rng -> list nat * np_rng.
Hypothesis shuffle_perm : forall l s, Permutation l (fst (shuffle l s)).
Variable params : Type.
Variable wrapper : params -> MultiTaskLossWrapper.t.
Variable heads : params -> ndarray -> result (list ndarray).
Variable optimizer_step : params -> ndarray -> list ndarray -> params.

Local Abbreviation step :=
  (batch_step params wrapper heads optimizer_step).
Local Abbreviation epoch :=
  (epoch_body np_rng torch_rng shuffle params wrapper heads optimizer_step).
Local Abbreviation dataset st :=
  (examples (st_X params st) (st_Y1 params st) (st_Y2 params st)).

(** A batch step leaves the dataset and the logged losses alone. *)
Lemma batch_step_frame (j : nat) (st st' : tstate params) :
  step j st = Ok st' ->
  st_X _ st' = st_X _ st /\ st_Y1 _ st' = st_Y1 _ st
  /\ st_Y2 _ st' = st_Y2 _ st /\ st_losses _ st' = st_losses _ st.
Proof.
  unfold batch_step.
  destruct (model params wrapper heads (st_params _ st) _) as [out|e];
    cbn [bind]; [|discriminate].
  destruct (batch_loss _ _ _ _) as [r|e]; cbn [bind]; [|discriminate].
  intros H. injection H as <-. cbn. repeat split.
Qed.

Lemma batch_steps_frame (js : list nat) (st st' : tstate params) :
  for_range js step st = Ok st' ->
  st_X _ st' = st_X _ st /\ st_Y1 _ st' = st_Y1 _ st
  /\ st_Y2 _ st' = st_Y2 _ st /\ st_losses _ st' = st_losses _ st.
Proof.
  revert st. induction js as [|j js IH]; intros st; cbn [for_range].
  - intros H. injection H as <-. repeat split.
  - destruct (step j st) as [st1|e] eqn:E; cbn [bind]; [|discriminate].
    intros H. apply IH in H. apply batch_step_frame in E.
    destruct H as (-> & -> & -> & ->). exact E.
Qed.

(** X13.  An epoch that raises nothing appends exactly one value to
    [losses] and leaves the earlier ones as they were; it leaves the
    dataset a rearrangement of what it was, example for example, all three
    arrays with the row count of [X].  The batch steps in between change
    neither. *)
Theorem epoch_bookkeeping (i : nat) (st st' : tstate params)
    (w w' : world np_rng torch_rng) :
  (nrows (st_X _ st) <= nrows (st_Y1 _ st))%nat ->
  (nrows (st_X _ st) <= nrows (st_Y2 _ st))%nat ->
  epoch i st w = (Ok st', w') ->
  (exists l, st_losses _ st' = st_losses _ st ++ [l])
  /\ Permutation (dataset st) (dataset st')
  /\ nrows (st_X _ st') = nrows (st_X _ st)
  /\ nrows (st_Y1 _ st') = nrows (st_X _ st)
  /\ nrows (st_Y2 _ st') = nrows (st_X _ st).
Proof.
  intros H1 H2. unfold epoch_body, bindNB.
  rewrite (shuffle_data_eval np_rng torch_rng shuffle shuffle_perm
             _ _ _ w H1 H2).
  cbn [fst snd lift].
  destruct (for_range _ _ _) as [st1|e] eqn:E; [|discriminate].
  unfold ret. intros H. injection H as <- _.
  apply batch_steps_frame in E.
  cbn [st_X st_Y1 st_Y2 st_losses] in *.
  destruct E as (EX & EY1 & EY2 & EL). rewrite EX, EY1, EY2, EL.
  destruct (shuffled_indices np_rng shuffle shuffle_perm
              (nrows (st_X _ st)) (np_state _ _ w)) as [HP _].
  assert (Hlen : length (fst (shuffle (seq 0 (nrows (st_X _ st)))
                                (np_state _ _ w)))
                 = nrows (st_X _ st)).
  { rewrite <- (Permutation_length HP). apply length_seq. }
  split; [eexists; reflexivity|].
  split; [now apply examples_indexed|].
  split; [unfold nrows at 1; cbn [rows]; now rewrite length_map|].
  split; [unfold nrows at 1; cbn [rows]; now rewrite length_map|].
  unfold nrows at 1. cbn [rows]. now rewrite length_map.
Qed.

(** X14.  A run of [n] epochs that raises nothing logs exactly [n] losses
    after the ones there were, which it keeps, and ends on a dataset that
    is a rearrangement of the one it started from: training never loses,
    repeats or re-pairs an example. *)
Theorem training_bookkeeping (a n : nat) (st st' : tstate params)
    (w w' : world np_rng torch_rng) :
  (nrows (st_X _ st) <= nrows (st_Y1 _ st))%nat ->
  (nrows (st_X _ st) <= nrows (st_Y2 _ st))%nat ->
  for_rangeNB _ _ (seq a n) epoch st w = (Ok st', w') ->
  length (st_losses _ st') = (length (st_losses _ st) + n)%nat
  /\ firstn (length (st_losses _ st)) (st_losses _ st') = st_losses _ st
  /\ Permutation (dataset st) (dataset st').
Proof.
  revert a st w. induction n as [|n IH]; intros a st w H1 H2.
  - cbn [seq for_rangeNB]. unfold ret. intros H. injection H as <- _.
    rewrite Nat.add_0_r, firstn_all. repeat split. apply Permutation_refl.
  - cbn [seq for_rangeNB]. unfold bindNB at 1.
    destruct (epoch a st w) as [[st1|e] w1] eqn:E; [|discriminate].
    intros H.
    destruct (epoch_bookkeeping a st st1 w w1 H1 H2 E)
      as ([l El] & HP & HX & HY1 & HY2).
    apply IH in H; [|lia|lia].
    destruct H as (Hlen & Hpre & HP').
    rewrite El, length_app in Hlen. cbn [length] in Hlen.
    split; [lia|]. split.
    + assert (Hcut : firstn (length (st_losses _ st))
                       (firstn (length (st_losses _ st1)) (st_losses _ st'))
                     = firstn (length (st_losses _ st)) (st_losses _ st')).
      { rewrite firstn_firstn. f_equal. rewrite El, length_app.
        cbn [length]. lia. }
      rewrite <- Hcut, Hpre, El, firstn_app, firstn_all, Nat.sub_diag.
      cbn [firstn]. apply app_nil_r.
    + exact (Permutation_trans HP HP').
Qed.

End TrainingLoopFacts.

Lemma epoch_bookkeeping_witness :
  exists (st' : tstate unit) (w' : world nat unit),
    epoch_body nat unit counter_shuffle unit echo_wrapper echo_heads
      echo_step 0 echo_state (World nat unit 0%nat tt) = (Ok st', w')
    /\ exists l, st_losses unit st' = st_losses unit echo_state ++ [l].
Proof.
  destruct (epoch_body nat unit counter_shuffle unit echo_wrapper echo_heads
              echo_step 0 echo_state (World nat unit 0%nat tt))
    as [[st'|e] w'] eqn:E.
  - exists st', w'. split; [reflexivity|].
    eapply (epoch_bookkeeping nat unit counter_shuffle counter_shuffle_perm
              unit echo_wrapper echo_heads echo_step 0 echo_state st'
              (World nat unit 0%nat tt) w').
    + cbn. lia.
    + cbn. lia.
    + exact E.
  - exfalso. vm_compute in E. discriminate E.
Defined.

Lemma training_bookkeeping_witness :
  exists (st' : tstate unit) (w' : world nat unit),
    for_rangeNB nat unit (seq 0 2)
      (epoch_body nat unit counter_shuffle unit echo_wrapper echo_heads
         echo_step)
      echo_state (World nat unit 0%nat tt) = (Ok st', w')
    /\ length (st_losses unit st') = 2%nat.
Proof.
  destruct (for_rangeNB nat unit (seq 0 2)
              (epoch_body nat unit counter_shuffle unit echo_wrapper
                 echo_heads echo_step)
              echo_state (World nat unit 0%nat tt))
    as [[st'|e] w'] eqn:E.
  - exists st', w'. split; [reflexivity|].
    eapply (training_bookkeeping nat unit counter_shuffle
              counter_shuffle_perm unit echo_wrapper echo_heads echo_step
              0 2 echo_state st' (World nat unit 0%nat tt) w').
    + cbn. lia.
    + cbn. lia.
    + exact E.
  - exfalso. vm_compute in E. discriminate E.
Defined.

(** *** From the generator to the batches *)

Lemma wf_indexed (a : ndarray) (s : list nat) :
  wf a -> Forall (fun k => (k < nrows a)%nat) s ->
  wf (Array (ncols a) (map (fun k => nth k (rows a) []) s)).
Proof.
  unfold wf, nrows. cbn [rows ncols]. intros Hwf Hs.
  apply Forall_map. eapply Forall_impl; [|exact Hs].
  intros k Hk. cbn beta. rewrite Forall_forall in Hwf.
  apply Hwf. now apply nth_In.
Qed.

Lemma slice_full (a : ndarray) (b j m : nat) :
  wf a -> (nrows a = m * b)%nat -> (j < m)%nat ->
  shape (slice a (j * b) ((j + 1) * b)) = (b, ncols a)
  /\ wf (slice a (j * b) ((j + 1) * b)).
Proof.
  intros Hwf Hn Hj. unfold shape, nrows, slice, wf in *. cbn [rows ncols].
  rewrite length_firstn, length_skipn. split.
  - f_equal. nia.
  - now apply Forall_firstn_skipn.
Qed.

Section GeneratedData.

Variables np_rng torch_rng : Type.
Variable randn : nat -> nat -> np_rng -> ndarray * np_rng.
Variable shuffle : list nat -> np_rng -> list nat * np_rng.
Hypothesis randn_shape : forall r c s,
  wf (fst (randn r c s)) /\ shape (fst (randn r c s)) = (r, c).
Hypothesis shuffle_perm : forall l s, Permutation l (fst (shuffle l s)).

(** [gen_data] raises nothing and returns three arrays of [n] rows and
    one column. *)
Lemma gen_data_shapes (n : nat) (w : world np_rng torch_rng) :
  exists (X Y1 Y2 : ndarray) (w1 : world np_rng torch_rng),
    gen_data _ _ randn n w = (Ok (X, Y1, Y2), w1)
    /\ (shape X = (n, 1%nat) /\ wf X)
    /\ (shape Y1 = (n, 1%nat) /\ wf Y1)
    /\ (shape Y2 = (n, 1%nat) /\ wf Y2).
Proof.
  destruct (randn n input_size (np_state _ _ w)) as [X s1] eqn:E1.
  destruct (randn n output1_size s1) as [noise1 s2] eqn:E2.
  destruct (randn n output2_size s2) as [noise2 s3] eqn:E3.
  pose proof (randn_shape n input_size (np_state _ _ w)) as [WX SX].
  pose proof (randn_shape n output1_size s1) as [W1 S1].
  pose proof (randn_shape n output2_size s2) as [W2 S2].
  rewrite E1 in WX, SX. rewrite E2 in W1, S1. rewrite E3 in W2, S2.
  cbn [fst] in *.
  destruct (gen_data_head X noise1 n 2 8 10 WX SX W1 S1)
    as [Y1 [EY1 [SY1 [WY1 _]]]].
  destruct (gen_data_head X noise2 n 3 3 1 WX SX W2 S2)
    as [Y2 [EY2 [SY2 [WY2 _]]]].
  exists X, Y1, Y2, (set_np _ _ s3 w). repeat split; try assumption.
  unfold gen_data, bindNB, np_random_randn, lift, ret.
  rewrite E1. cbn [np_state set_np]. rewrite E2. cbn [np_state set_np].
  rewrite EY1. rewrite E3. cbn [np_state set_np torch_state].
  rewrite EY2. reflexivity.
Qed.

(** X15.  What cell 5 does with the data before the model sees it never
    raises: [gen_data(N)] followed by [shuffle_data] on its three arrays
    succeeds, the shuffled arrays have [N] rows and one column, and each of
    the [N // batch_size] slices taken from them is a full batch of
    [batch_size] rows and one column. *)
Theorem generated_data_batches (w : world np_rng torch_rng) :
  exists (X Y1 Y2 X' Y1' Y2' : ndarray) (w1 w2 : world np_rng torch_rng),
    gen_data _ _ randn N w = (Ok (X, Y1, Y2), w1)
    /\ shuffle_data _ _ shuffle X Y1 Y2 w1 = (Ok (X', Y1', Y2'), w2)
    /\ Permutation (examples X Y1 Y2) (examples X' Y1' Y2')
    /\ forall a j, In a [X'; Y1'; Y2'] -> (j < N / batch_size)%nat ->
         shape a = (N, 1%nat)
         /\ shape (slice a (j * batch_size) ((j + 1) * batch_size))
            = (batch_size, 1%nat)
         /\ wf (slice a (j * batch_size) ((j + 1) * batch_size)).
Proof.
  destruct (gen_data_shapes N w)
    as (X & Y1 & Y2 & w1 & EG & [SX WX] & [SY1 WY1] & [SY2 WY2]).
  unfold shape in SX, SY1, SY2.
  injection SX as RX CX. injection SY1 as RY1 CY1. injection SY2 as RY2 CY2.
  assert (H1 : (nrows X <= nrows Y1)%nat) by lia.
  assert (H2 : (nrows X <= nrows Y2)%nat) by lia.
  destruct (shuffled_indices np_rng shuffle shuffle_perm (nrows X)
              (np_state _ _ w1)) as [HP Hin].
  assert (Hlen : length (fst (shuffle (seq 0 (nrows X)) (np_state _ _ w1)))
                 = N).
  { rewrite <- (Permutation_length HP), length_seq. exact RX. }
  eexists X, Y1, Y2, _, _, _, w1, _.
  split; [exact EG|].
  split; [apply (shuffle_data_eval np_rng torch_rng shuffle shuffle_perm
                   X Y1 Y2 w1 H1 H2)|].
  split; [now apply examples_indexed|].
  intros a j Ha Hj.
  assert (Ha' : shape a = (N, 1%nat) /\ wf a).
  { assert (Hidx : forall A, nrows A = N -> ncols A = 1%nat -> wf A ->
              shape (Array (ncols A)
                       (map (fun k => nth k (rows A) [])
                          (fst (shuffle (seq 0 (nrows X))
                                  (np_state _ _ w1)))))
              = (N, 1%nat)
              /\ wf (Array (ncols A)
                       (map (fun k => nth k (rows A) [])
                          (fst (shuffle (seq 0 (nrows X))
                                  (np_state _ _ w1)))))).
    { intros A RA CA WA. split.
      - unfold shape. cbn [ncols]. f_equal; [|exact CA].
        unfold nrows at 1. cbn [rows]. rewrite length_map. exact Hlen.
      - apply wf_indexed; [exact WA | apply Hin; lia]. }
    destruct Ha as [<- | [<- | [<- | []]]]; now apply Hidx. }
  destruct Ha' as [Sa Wa]. split; [exact Sa|].
  unfold shape in Sa. injection Sa as Ra Ca.
  destruct (slice_full a batch_size j (N / batch_size) Wa) as [Hs Hw].
  - rewrite Ra. reflexivity.
  - exact Hj.
  - rewrite Hs, Ca. split; [reflexivity | exact Hw].
Qed.

End GeneratedData.

Lemma generated_data_batches_witness :
  exists (X Y1 Y2 X' Y1' Y2' : ndarray) (w1 w2 : world nat unit),
    gen_data nat unit counter_randn N (World nat unit 0%nat tt)
      = (Ok (X, Y1, Y2), w1)
    /\ shuffle_data nat unit counter_shuffle X Y1 Y2 w1
       = (Ok (X', Y1', Y2'), w2)
    /\ shape (slice Y1' (4 * batch_size) ((4 + 1) * batch_size))
       = (batch_size, 1%nat).
Proof.
  destruct (generated_data_batches nat unit counter_randn counter_shuffle
              counter_randn_shape counter_shuffle_perm
              (World nat unit 0%nat tt))
    as (X & Y1 & Y2 & X' & Y1' & Y2' & w1 & w2 & EG & ES & _ & H).
  exists X, Y1, Y2, X', Y1', Y2', w1, w2.
  split; [exact EG|]. split; [exact ES|].
  apply (H Y1' 4%nat).
  - right. left. reflexivity.
  - change (N / batch_size)%nat with 5%nat. lia.
Defined.

(** *** The order of the examples of a batch *)






